(** * skkeleton: the candidate-dictionary engine (jisyo.ts)

    A shallow embedding of the dictionary subsystem of denops-skkeleton:
    the on-disk dictionary text format, the user dictionary with its
    completion cache, rank table and persistence, the skkserv client,
    the numeral wrapper and the [Library] facade, followed by the
    properties established about them.

    Conventions.  A JavaScript string is the sequence of its UTF-16 code
    units, which is what [length], [indexOf], [slice] and [split] count
    and cut; the type [string] below is that sequence, and a literal
    between double quotes stands for the code units of its text.  A
    JavaScript [Map] is an insertion-ordered association list, a [Set]
    an insertion-ordered duplicate-free list.
    Built-ins whose behaviour is fixed outside the repository (the file
    system, the clock, the collation behind [localeCompare], [JSON], the
    kana table, number formatting) are fields of the class [Host]. *)

From Stdlib Require Import List NArith ZArith Lia Bool.
From Stdlib Require Import Permutation Sorted.
From Stdlib.Strings Require Import Byte.
Import ListNotations.

(* ================================================================== *)
(** ** JavaScript strings *)

(** A string: its UTF-16 code units, first to last. *)
Inductive string : Set :=
| EmptyString
| String (u : N) (s : string).

Fixpoint of_units (us : list N) : string :=
  match us with
  | [] => EmptyString
  | u :: us' => String u (of_units us')
  end.

Fixpoint to_units (s : string) : list N :=
  match s with
  | EmptyString => []
  | String u s' => u :: to_units s'
  end.

(** The code units of a text given by its UTF-8 bytes, and back; this
    is how the literals of this file are read and shown. *)
Fixpoint utf16_of_utf8 (bs : list N) : list N :=
  (match bs with
   | [] => []
   | b0 :: rest =>
       if b0 <? 128 then b0 :: utf16_of_utf8 rest
       else if b0 <? 224 then
         match rest with
         | b1 :: rest' => (N.land b0 31 * 64 + N.land b1 63) :: utf16_of_utf8 rest'
         | _ => [65533]
         end
       else if b0 <? 240 then
         match rest with
         | b1 :: b2 :: rest' =>
             (N.land b0 15 * 4096 + N.land b1 63 * 64 + N.land b2 63)
               :: utf16_of_utf8 rest'
         | _ => [65533]
         end
       else
         match rest with
         | b1 :: b2 :: b3 :: rest' =>
             let cp := N.land b0 7 * 262144 + N.land b1 63 * 4096
                       + N.land b2 63 * 64 + N.land b3 63 - 65536 in
             (55296 + cp / 1024) :: (56320 + cp mod 1024) :: utf16_of_utf8 rest'
         | _ => [65533]
         end
   end)%N.

Fixpoint utf8_of_utf16 (us : list N) : list N :=
  (match us with
   | [] => []
   | u :: rest =>
       if u <? 128 then u :: utf8_of_utf16 rest
       else if u <? 2048 then (192 + u / 64) :: (128 + u mod 64) :: utf8_of_utf16 rest
       else if ((55296 <=? u) && (u <? 56320))%bool then
         match rest with
         | lo :: rest' =>
             let cp := 65536 + (u - 55296) * 1024 + (lo - 56320) in
             (240 + cp / 262144) :: (128 + cp / 4096 mod 64)
               :: (128 + cp / 64 mod 64) :: (128 + cp mod 64) :: utf8_of_utf16 rest'
         | [] => [239; 191; 189]
         end
       else (224 + u / 4096) :: (128 + u / 64 mod 64) :: (128 + u mod 64)
              :: utf8_of_utf16 rest
   end)%N.

Definition string_of_literal (bs : list byte) : string :=
  of_units (utf16_of_utf8 (map Byte.to_N bs)).

Definition literal_of_string (s : string) : list byte :=
  map (fun n => match Byte.of_N n with Some b => b | None => Byte.x3f end)
    (utf8_of_utf16 (to_units s)).

Declare Scope js_scope.
Delimit Scope js_scope with js.
Bind Scope js_scope with string.
String Notation string string_of_literal literal_of_string : js_scope.

Local Open Scope js_scope.
Local Open Scope Z_scope.

Module JsString.

(** The code units of the newline, the space, the slash, the double
    quote, the number sign, the comma and the right bracket. *)
Definition newline : N := 10.
Definition space : N := 32.
Definition slash : N := 47.
Definition dquote : N := 34.
Definition hash : N := 35.
Definition comma : N := 44.
Definition rbracket : N := 93.

(** [a + b] *)
Fixpoint append (a b : string) : string :=
  match a with
  | EmptyString => b
  | String u a' => String u (append a' b)
  end.

Infix "++" := append (right associativity, at level 60) : js_scope.

Fixpoint length (s : string) : nat :=
  match s with
  | EmptyString => O
  | String _ s' => S (length s')
  end.

(** [a === b] *)
Fixpoint eqb (a b : string) : bool :=
  match a, b with
  | EmptyString, EmptyString => true
  | String u a', String v b' => N.eqb u v && eqb a' b'
  | _, _ => false
  end.

(** [s] without its first [n] code units, and the first [m] code units
    of [s]; all of them when there are fewer. *)
Fixpoint skip (n : nat) (s : string) : string :=
  match n, s with
  | S n', String _ s' => skip n' s'
  | _, _ => s
  end.

Fixpoint take (m : nat) (s : string) : string :=
  match m, s with
  | S m', String c s' => String c (take m' s')
  | _, _ => EmptyString
  end.

(** The [m] code units of [s] from place [n] on. *)
Definition substr (n m : nat) (s : string) : string := take m (skip n s).

Fixpoint prefix (p s : string) : bool :=
  match p, s with
  | EmptyString, _ => true
  | String u p', String v s' => N.eqb u v && prefix p' s'
  | String _ _, EmptyString => false
  end.

(** Comparison of the code units, first difference first. *)
Fixpoint compare (a b : string) : comparison :=
  match a, b with
  | EmptyString, EmptyString => Eq
  | EmptyString, String _ _ => Lt
  | String _ _, EmptyString => Gt
  | String u a', String v b' =>
      match N.compare u v with
      | Eq => compare a' b'
      | c => c
      end
  end.

(** [s.length] *)
Definition len (s : string) : Z := Z.of_nat (length s).

(** [s.indexOf(c)] for a one-character needle; [-1] when absent. *)
Fixpoint indexOf (c : N) (s : string) : Z :=
  match s with
  | EmptyString => -1
  | String a s' =>
      if N.eqb a c then 0
      else let r := indexOf c s' in if r =? -1 then -1 else r + 1
  end.

(** [s.substring(start, end)]: both ends clamped to [0, length], and
    swapped when [start > end]. *)
Definition substring (s : string) (start end_ : Z) : string :=
  let a := Z.max 0 (Z.min (len s) start) in
  let b := Z.max 0 (Z.min (len s) end_) in
  substr (Z.to_nat (Z.min a b)) (Z.to_nat (Z.max a b - Z.min a b)) s.

(** [s.slice(start, end)]: a negative index counts from the end; the
    result is empty when the start is not before the end. *)
Definition slice (s : string) (start end_ : Z) : string :=
  let from := if start <? 0 then Z.max (len s + start) 0 else Z.min start (len s) in
  let to := if end_ <? 0 then Z.max (len s + end_) 0 else Z.min end_ (len s) in
  substr (Z.to_nat from) (Z.to_nat (to - from)) s.

(** [s.split(sep)] for a one-character separator. *)
Fixpoint split (sep : N) (s : string) : list string :=
  match s with
  | EmptyString => [EmptyString]
  | String a s' =>
      if N.eqb a sep then EmptyString :: split sep s'
      else match split sep s' with
           | h :: t => String a h :: t
           | [] => [String a EmptyString]
           end
  end.

(** [l.join(sep)] *)
Fixpoint join (sep : string) (l : list string) : string :=
  match l with
  | [] => EmptyString
  | [x] => x
  | x :: t => x ++ sep ++ join sep t
  end.

(** The strings of [l] one after the other. *)
Fixpoint concat (l : list string) : string :=
  match l with
  | [] => EmptyString
  | x :: t => x ++ concat t
  end.

(** [s.startsWith(p)] *)
Definition startsWith (s p : string) : bool := prefix p s.

(** [s.at(0)] *)
Definition at0 (s : string) : option N :=
  match s with
  | EmptyString => None
  | String a _ => Some a
  end.

(** [s.endsWith(c)] for a one-character suffix. *)
Fixpoint endsWith (s : string) (c : N) : bool :=
  match s with
  | EmptyString => false
  | String a EmptyString => N.eqb a c
  | String _ s' => endsWith s' c
  end.

(** The character [c] occurs in [s]. *)
Fixpoint has (c : N) (s : string) : bool :=
  match s with
  | EmptyString => false
  | String a s' => N.eqb a c || has c s'
  end.

End JsString.

Infix "++" := JsString.append (right associativity, at level 60) : js_scope.

(* ================================================================== *)
(** ** JavaScript arrays, sets and maps *)

Module JsArray.

(** [l.sort(cmp)]: the sort is stable, and [a] stays ahead of [b]
    whenever [cmp a b <= 0].  For a consistent comparator every stable
    algorithm returns the same array; insertion from the right is the
    one written here. *)
Section Sort.
Context {A : Type} (cmp : A -> A -> Z).

Fixpoint insert (x : A) (l : list A) : list A :=
  match l with
  | [] => [x]
  | y :: l' => if cmp x y <=? 0 then x :: l else y :: insert x l'
  end.

Fixpoint sort (l : list A) : list A :=
  match l with
  | [] => []
  | x :: l' => insert x (sort l')
  end.

End Sort.

(** [l.slice(1, -1)]: the array without its first and last element. *)
Definition slice_1_m1 {A : Type} (l : list A) : list A :=
  List.removelast (List.tl l).

(** [zip(a, b)] of std/collections: pairs up to the shorter array. *)
Definition zip {A B : Type} (a : list A) (b : list B) : list (A * B) :=
  List.combine a b.

End JsArray.

Module JsSet.

(** A [Set<string>] in insertion order. *)
Definition t := list string.

Definition has (x : string) (s : t) : bool := existsb (JsString.eqb x) s.

(** [s.add(x)] *)
Definition add (s : t) (x : string) : t := if has x s then s else (s ++ [x])%list.

(** [cs.forEach(s.add.bind(s))] *)
Definition addAll (s : t) (l : list string) : t := fold_left add l s.

(** [new Set(l)] *)
Definition from (l : list string) : t := addAll [] l.

End JsSet.

Module JsMap.

Section Map.
Context {V : Type}.

(** A [Map<string, V>]: the entries in insertion order. *)
Definition t := list (string * V).

(** [m.get(k)] *)
Fixpoint get (k : string) (m : t) : option V :=
  match m with
  | [] => None
  | (k', v) :: m' => if JsString.eqb k' k then Some v else get k m'
  end.

(** [m.set(k, v)]: an existing key keeps its place, a new key goes
    last. *)
Fixpoint set (k : string) (v : V) (m : t) : t :=
  match m with
  | [] => [(k, v)]
  | (k', v') :: m' =>
      if JsString.eqb k' k then (k, v) :: m' else (k', v') :: set k v m'
  end.

(** [m.delete(k)] *)
Definition delete (k : string) (m : t) : t :=
  filter (fun e => negb (JsString.eqb (fst e) k)) m.

Definition keys (m : t) : list string := map fst m.

(** The well-formedness every [Map] object has: no key twice. *)
Definition wf (m : t) : Prop := NoDup (keys m).

(** [new Map(entries)] *)
Definition from (l : list (string * V)) : t :=
  fold_left (fun m e => set (fst e) (snd e) m) l [].

End Map.

Arguments t : clear implicits.

End JsMap.

(* ================================================================== *)
(** ** The dictionary text format *)

Definition okuriAriMarker : string := ";; okuri-ari entries.".
Definition okuriNasiMarker : string := ";; okuri-nasi entries.".

Inductive HenkanType := okuriari | okurinasi.

Definition Table := JsMap.t (list string).
Definition CompletionData := list (string * list string).

(** The loop of [readFile] (and of [SKKDictionary.load]) over the lines,
    with the mode and the two maps [a[0]], [a[1]] as loop state. *)
Fixpoint readLines (lines : list string) (mode : Z) (a0 a1 : Table)
  : Table * Table :=
  match lines with
  | [] => (a0, a1)
  | line :: rest =>
      if JsString.eqb line okuriAriMarker then readLines rest 0 a0 a1
      else if JsString.eqb line okuriNasiMarker then readLines rest 1 a0 a1
      else if mode =? -1 then readLines rest mode a0 a1
      else
        let pos := JsString.indexOf JsString.space line in
        if negb (pos =? -1) then
          let key := JsString.substring line 0 pos in
          let cands := JsString.split JsString.slash (JsString.slice line (pos + 2) (-1)) in
          if mode =? 0
          then readLines rest mode (JsMap.set key cands a0) a1
          else readLines rest mode a0 (JsMap.set key cands a1)
        else readLines rest mode a0 a1
  end.

(** The decoder: the text is split at newlines and read from mode [-1]
    into two fresh maps. *)
Definition decode (text : string) : Table * Table :=
  readLines (JsString.split JsString.newline text) (-1) [] [].

(** One entry line of [writeFile]. *)
Definition entryLine (e : string * list string) : string :=
  fst e ++ " /" ++ JsString.join "/" (snd e) ++ "/".

(* ================================================================== *)
(** ** The host: what the code calls and the repository does not define *)

(** A thrown value: the name of the error class and its message. *)
Inductive Error := JsError (name message : string).

#[local] Set Warnings "-register-all".

(** A value returned by [JSON.parse]. *)
Inductive JSON :=
| JNull
| JBool (b : bool)
| JNumber (literal : string)
| JString (s : string)
| JArray (items : list JSON)
| JObject (fields : list (string * JSON)).

#[local] Set Warnings "register-all".

Class Host := {
  (** the state of the world outside the process *)
  World : Type;
  (** [Deno.readTextFile(path)] *)
  Deno_readTextFile : string -> World -> (Error + string) * World;
  (** [(await Deno.stat(path)).mtime?.getTime()] *)
  Deno_stat_mtime : string -> World -> (Error + option Z) * World;
  (** [Deno.writeTextFile(path, data)] *)
  Deno_writeTextFile : string -> string -> World -> (Error + unit) * World;
  (** [Date.now()] *)
  Date_now : World -> Z * World;
  (** [JSON.parse] and [JSON.stringify] (the latter on string arrays) *)
  JSON_parse : string -> Error + JSON;
  JSON_stringify : list string -> string;
  (** [a.localeCompare(b)] *)
  localeCompare : string -> string -> Z;
  (** [getKanaTable(config.kanaTable)], each entry read as the source
      casts it: a key and [kanas as string[]] *)
  getKanaTable : list (string * list string);
  (** [config.debug], [config.immediatelyJisyoRW] *)
  config_debug : bool;
  config_immediatelyJisyoRW : bool;
  (** numbers: [parseInt], [n.toString()], [JpNum.number2kanji] *)
  JsNumber : Type;
  parseInt : string -> JsNumber;
  Number_toString : JsNumber -> string;
  number2kanji : JsNumber -> string;
  (** [encoding.convert] of encoding-japanese and [TextDecoder.decode],
      by encoding name *)
  encode_to : string -> string -> string;
  decode_from : string -> string -> string
}.

(** What the process did that is visible from outside: console lines and
    completed file writes, most recent first. *)
Inductive Event :=
| EvLog (line : string)
| EvWrite (path data : string).

Section Jisyo.
Context {host : Host}.

Record Runtime := { world : World; trace : list Event }.

(* ------------------------------------------------------------------ *)
(** *** The serializer *)

Definition sortOkuriAri (m : Table) : Table :=
  JsArray.sort (fun a b => localeCompare (fst b) (fst a)) m.

Definition sortOkuriNasi (m : Table) : Table :=
  JsArray.sort (fun a b => localeCompare (fst a) (fst b)) m.

(** The text [writeFile] hands to [Deno.writeTextFile]. *)
Definition encode (t : Table * Table) : string :=
  JsString.join (String JsString.newline EmptyString)
    ([okuriAriMarker]
       ++ map entryLine (sortOkuriAri (fst t))
       ++ [okuriNasiMarker]
       ++ map entryLine (sortOkuriNasi (snd t))
       ++ [EmptyString])%list.

(* ------------------------------------------------------------------ *)
(** *** Numeral conversion *)

Definition isDigit (c : N) : bool := ((48 <=? c) && (c <=? 57))%N.

Definition digitValue (c : N) : nat := N.to_nat (c - 48).

Definition zenkakuNumbers : list string :=
  ["０"; "１"; "２"; "３"; "４"; "５"; "６"; "７"; "８"; "９"].

Definition kanjiNumbers : list string :=
  ["〇"; "一"; "二"; "三"; "四"; "五"; "六"; "七"; "八"; "九"].

(** [s.replaceAll(/[0-9]/g, (c) => table[parseInt(c)])] *)
Fixpoint replaceDigits (table : list string) (s : string) : string :=
  match s with
  | EmptyString => EmptyString
  | String c s' =>
      (if isDigit c then nth (digitValue c) table EmptyString
       else String c EmptyString) ++ replaceDigits table s'
  end.

Definition toZenkaku (n : JsNumber) : string :=
  replaceDigits zenkakuNumbers (Number_toString n).

Definition toKanjiModern (n : JsNumber) : string :=
  replaceDigits kanjiNumbers (Number_toString n).

Definition toKanjiClassic (n : JsNumber) : string := number2kanji n.

(** [pattern.split(/(#[0-9]?)/g)]: the pieces of text alternate with the
    markers found between them. *)
Fixpoint splitMarkers (s : string) : list string :=
  match s with
  | EmptyString => [EmptyString]
  | String c s' =>
      if N.eqb c JsString.hash then
        match s' with
        | String d s'' =>
            if isDigit d
            then EmptyString :: String c (String d EmptyString) :: splitMarkers s''
            else EmptyString :: String c EmptyString :: splitMarkers s'
        | EmptyString => EmptyString :: String c EmptyString :: splitMarkers s'
        end
      else match splitMarkers s' with
           | h :: t => String c h :: t
           | [] => [String c EmptyString]
           end
  end.

(** [entry.split(/([0-9]+)/g)]: the pieces of text alternate with the
    maximal digit runs. *)
Fixpoint splitDigitRuns (s : string) : list string :=
  match s with
  | EmptyString => [EmptyString]
  | String c s' =>
      let r := splitDigitRuns s' in
      if isDigit c then
        match JsString.at0 s', r with
        | Some d, h :: run :: t =>
            if isDigit d then h :: String c run :: t
            else EmptyString :: String c EmptyString :: r
        | _, _ => EmptyString :: String c EmptyString :: r
        end
      else match r with
           | h :: t => String c h :: t
           | [] => [String c EmptyString]
           end
  end.

(** [word.replaceAll(/[0-9]+/g, "#")] *)
Fixpoint replaceDigitRuns (s : string) : string :=
  match s with
  | EmptyString => EmptyString
  | String c s' =>
      if isDigit c then
        match JsString.at0 s' with
        | Some d => if isDigit d then replaceDigitRuns s'
                    else String JsString.hash (replaceDigitRuns s')
        | None => String JsString.hash EmptyString
        end
      else String c (replaceDigitRuns s')
  end.

Definition convertPiece (ke : string * string) : string :=
  let (k, e) := ke in
  if existsb (JsString.eqb k) ["#"; "#0"; "#4"; "#5"; "#6"; "#7"; "#8"; "#9"] then e
  else if JsString.eqb k "#1" then toZenkaku (parseInt e)
  else if JsString.eqb k "#2" then toKanjiModern (parseInt e)
  else if JsString.eqb k "#3" then toKanjiClassic (parseInt e)
  else k.

Definition convertNumber (pattern entry : string) : string :=
  JsString.join EmptyString
    (map convertPiece (JsArray.zip (splitMarkers pattern) (splitDigitRuns entry))).

(* ------------------------------------------------------------------ *)
(** *** SKKDictionary *)

Record SKKDictionary := {
  skk_okuriAri : Table;
  skk_okuriNasi : Table
}.

Definition SKKDictionary_getCandidate (d : SKKDictionary) (type : HenkanType)
    (word : string) : list string :=
  let target := match type with okuriari => skk_okuriAri d | okurinasi => skk_okuriNasi d end in
  match JsMap.get word target with Some l => l | None => [] end.

(** The search shared by [SKKDictionary.getCandidates] and
    [UserDictionary.cacheCandidates]: the entries pushed onto
    [candidates], in the order of the loops. *)
Definition searchCandidates (okuriNasi : Table) (prefix feed : string)
  : CompletionData :=
  if negb (JsString.eqb feed "") then
    flat_map
      (fun kk : string * list string =>
         if JsString.startsWith (fst kk) feed && (1 <? Z.of_nat (List.length (snd kk)))
         then
           let feedPrefix := prefix ++ nth 0 (snd kk) EmptyString in
           filter (fun entry => JsString.startsWith (fst entry) feedPrefix) okuriNasi
         else [])
      getKanaTable
  else filter (fun entry => JsString.startsWith (fst entry) prefix) okuriNasi.

Definition SKKDictionary_getCandidates (d : SKKDictionary) (prefix feed : string)
  : CompletionData :=
  JsArray.sort (fun a b => localeCompare (fst a) (fst b))
    (searchCandidates (skk_okuriNasi d) prefix feed).

(* ------------------------------------------------------------------ *)
(** *** UserDictionary *)

Record UserDictionary := {
  okuriAri : Table;
  okuriNasi : Table;
  rank : JsMap.t Z;
  path : string;
  rankPath : string;
  loadTime : Z;
  cachedPrefix : string;
  cachedFeed : string;
  cachedCandidates : CompletionData
}.

(** [new UserDictionary(okuriAri, okuriNasi, rank)] *)
Definition UserDictionary_new (a n : Table) (r : JsMap.t Z) : UserDictionary :=
  {| okuriAri := a; okuriNasi := n; rank := r;
     path := ""; rankPath := ""; loadTime := -1;
     cachedPrefix := ""; cachedFeed := ""; cachedCandidates := [] |}.

Definition with_tables (a n : Table) (d : UserDictionary) : UserDictionary :=
  {| okuriAri := a; okuriNasi := n; rank := rank d;
     path := path d; rankPath := rankPath d; loadTime := loadTime d;
     cachedPrefix := cachedPrefix d; cachedFeed := cachedFeed d;
     cachedCandidates := cachedCandidates d |}.

Definition with_rank (r : JsMap.t Z) (d : UserDictionary) : UserDictionary :=
  {| okuriAri := okuriAri d; okuriNasi := okuriNasi d; rank := r;
     path := path d; rankPath := rankPath d; loadTime := loadTime d;
     cachedPrefix := cachedPrefix d; cachedFeed := cachedFeed d;
     cachedCandidates := cachedCandidates d |}.

Definition with_paths (p rp : string) (d : UserDictionary) : UserDictionary :=
  {| okuriAri := okuriAri d; okuriNasi := okuriNasi d; rank := rank d;
     path := p; rankPath := rp; loadTime := loadTime d;
     cachedPrefix := cachedPrefix d; cachedFeed := cachedFeed d;
     cachedCandidates := cachedCandidates d |}.

Definition with_loadTime (t : Z) (d : UserDictionary) : UserDictionary :=
  {| okuriAri := okuriAri d; okuriNasi := okuriNasi d; rank := rank d;
     path := path d; rankPath := rankPath d; loadTime := t;
     cachedPrefix := cachedPrefix d; cachedFeed := cachedFeed d;
     cachedCandidates := cachedCandidates d |}.

Definition with_cachedPrefix (p : string) (d : UserDictionary) : UserDictionary :=
  {| okuriAri := okuriAri d; okuriNasi := okuriNasi d; rank := rank d;
     path := path d; rankPath := rankPath d; loadTime := loadTime d;
     cachedPrefix := p; cachedFeed := cachedFeed d;
     cachedCandidates := cachedCandidates d |}.

Definition with_cache (p f : string) (c : CompletionData) (d : UserDictionary)
  : UserDictionary :=
  {| okuriAri := okuriAri d; okuriNasi := okuriNasi d; rank := rank d;
     path := path d; rankPath := rankPath d; loadTime := loadTime d;
     cachedPrefix := p; cachedFeed := f; cachedCandidates := c |}.

(** [type === "okuriari" ? this.#okuriAri : this.#okuriNasi] *)
Definition target (type : HenkanType) (d : UserDictionary) : Table :=
  match type with okuriari => okuriAri d | okurinasi => okuriNasi d end.

Definition with_target (type : HenkanType) (m : Table) (d : UserDictionary)
  : UserDictionary :=
  match type with
  | okuriari => with_tables m (okuriNasi d) d
  | okurinasi => with_tables (okuriAri d) m d
  end.

(** [target.get(word) ?? []] *)
Definition entryOf (word : string) (m : Table) : list string :=
  match JsMap.get word m with Some l => l | None => [] end.

Definition getCandidate (type : HenkanType) (word : string) (d : UserDictionary)
  : list string :=
  entryOf word (target type d).

Definition cacheCandidates (prefix feed : string) (d : UserDictionary)
  : UserDictionary :=
  if JsString.eqb (cachedPrefix d) prefix && JsString.eqb (cachedFeed d) feed then d
  else with_cache prefix feed (searchCandidates (okuriNasi d) prefix feed) d.

Definition getCandidates (prefix feed : string) (d : UserDictionary)
  : CompletionData * UserDictionary :=
  let d' := cacheCandidates prefix feed d in
  (cachedCandidates d', d').

Definition getRanks (prefix : string) (d : UserDictionary)
  : list (string * Z) * UserDictionary :=
  let d' := cacheCandidates prefix "" d in
  let set := fold_left (fun s kc => JsSet.addAll s (snd kc)) (cachedCandidates d') [] in
  (filter (fun e => JsSet.has (fst e) set) (rank d'), d').

(** [registerCandidate]; [now] is the value [Date.now()] returns. *)
Definition registerCandidate (type : HenkanType) (word candidate : string)
    (now : Z) (d : UserDictionary) : UserDictionary :=
  if JsString.eqb candidate "" then d
  else
    let oldCandidate := entryOf word (target type d) in
    let d1 := with_target type
                (JsMap.set word (JsSet.from (candidate :: oldCandidate)) (target type d)) d in
    let d2 := with_rank (JsMap.set candidate now (rank d1)) d1 in
    with_cachedPrefix "" d2.

Definition purgeCandidate (type : HenkanType) (word candidate : string)
    (d : UserDictionary) : UserDictionary :=
  let newCandidate :=
    filter (fun c => negb (JsString.eqb c candidate)) (entryOf word (target type d)) in
  if 0 <? Z.of_nat (List.length newCandidate)
  then with_target type (JsMap.set word newCandidate (target type d)) d
  else with_target type (JsMap.delete word (target type d)) d.

(* ------------------------------------------------------------------ *)
(** *** Asynchronous methods: state, world and exceptions

    A method body runs on a state [S] (the object and the runtime) and
    either returns or throws; assignments made before a throw stay. *)

Definition M (S A : Type) : Type := S -> (Error + A) * S.

Definition ret {S A} (a : A) : M S A := fun s => (inr a, s).

Definition throw {S A} (e : Error) : M S A := fun s => (inl e, s).

Definition bind {S A B} (c : M S A) (k : A -> M S B) : M S B :=
  fun s => match c s with
           | (inr a, s') => k a s'
           | (inl e, s') => (inl e, s')
           end.

(** [try { c } catch (e) { h(e) }] *)
Definition try_catch {S A} (c : M S A) (h : Error -> M S A) : M S A :=
  fun s => match c s with
           | (inr a, s') => (inr a, s')
           | (inl e, s') => h e s'
           end.

Definition gets {S A} (f : S -> A) : M S A := fun s => (inr (f s), s).

Definition modify {S} (f : S -> S) : M S unit := fun s => (inr tt, f s).

Notation "x <- c ;; k" := (bind c (fun x => k))
  (at level 61, c at next level, right associativity).
Notation "c ;;; k" := (bind c (fun _ => k))
  (at level 61, right associativity).

(** The state of a [UserDictionary] method. *)
Definition UState : Type := UserDictionary * Runtime.

Definition this_ : M UState UserDictionary := gets fst.

Definition update (f : UserDictionary -> UserDictionary) : M UState unit :=
  modify (fun s : UState => (f (fst s), snd s)).

(** A call into the host that may throw. *)
Definition host_call {A} (op : World -> (Error + A) * World) : M UState A :=
  fun s =>
    let (r, w) := op (world (snd s)) in
    (r, (fst s, {| world := w; trace := trace (snd s) |})).

Definition emit (e : Event) : M UState unit :=
  modify (fun s : UState =>
            (fst s, {| world := world (snd s); trace := e :: trace (snd s) |})).

Definition console_log (line : string) : M UState unit := emit (EvLog line).

Definition Error_toString (e : Error) : string :=
  match e with JsError name message => name ++ ": " ++ message end.

Definition readTextFile (p : string) : M UState string :=
  host_call (Deno_readTextFile p).

Definition writeTextFile (p data : string) : M UState unit :=
  host_call (Deno_writeTextFile p data) ;;;
  emit (EvWrite p data).

(** A string is truthy when it is not empty. *)
Definition truthy (s : string) : bool := negb (JsString.eqb s "").

Definition isString (j : JSON) : bool :=
  match j with JString _ => true | _ => false end.

Definition stringOf (j : JSON) : string :=
  match j with JString s => s | _ => "" end.

(** [assertArray(x, isString)] of unknownutil, returning the array. *)
Definition assertArray_isString (x : JSON) : Error + list string :=
  match x with
  | JArray items =>
      if forallb isString items then inr (map stringOf items)
      else inl (JsError "AssertError" "The value is not an array of string")
  | _ => inl (JsError "AssertError" "The value is not an array of string")
  end.

Definition lift_result {S A} (r : Error + A) : M S A :=
  match r with inl e => throw e | inr a => ret a end.

(** [rankData.map((c, i) => [c, i])] *)
Fixpoint indexed (l : list string) (i : Z) : list (string * Z) :=
  match l with
  | [] => []
  | c :: l' => (c, i) :: indexed l' (i + 1)
  end.

Definition readFile (p rp : string) : M UState unit :=
  update (with_tables [] []) ;;;
  text <- readTextFile p ;;
  update (fun d =>
            let t := readLines (JsString.split JsString.newline text) (-1)
                       (okuriAri d) (okuriNasi d) in
            with_tables (fst t) (snd t) d) ;;;
  if negb (truthy rp) then ret tt
  else
    rtext <- readTextFile rp ;;
    rankData <- lift_result (JSON_parse rtext) ;;
    arr <- lift_result (assertArray_isString rankData) ;;
    update (with_rank (JsMap.from (indexed arr 0))).

(** How the [try] block of [load] ends when nothing is thrown. *)
Inductive Completion := Returned | FellThrough.

(** [load({ path, rankPath })]; an absent property is [None]. *)
Definition load (p rp : option string) : M UState unit :=
  d <- this_ ;;
  let p := match p with Some x => x | None => path d end in
  let rp := match rp with Some x => x | None => rankPath d end in
  update (with_paths p rp) ;;;
  if truthy p then
    c <- try_catch
           (mtime <- host_call (Deno_stat_mtime p) ;;
            let time := match mtime with Some t => t | None => -1 end in
            d <- this_ ;;
            if time =? loadTime d then ret Returned
            else
              update (with_loadTime time) ;;;
              readFile p rp ;;;
              ret FellThrough)
           (fun _ => ret FellThrough) ;;
    match c with
    | Returned => ret tt
    | FellThrough => update (with_cachedPrefix "")
    end
  else ret tt.

(** The array [writeFile] passes to [JSON.stringify]. *)
Definition rankData (d : UserDictionary) : list string :=
  map fst (JsArray.sort (fun a b => snd a - snd b) (rank d)).

Definition writeFile (p rp : string) : M UState unit :=
  d <- this_ ;;
  let data := encode (okuriAri d, okuriNasi d) in
  try_catch (writeTextFile p data)
    (fun e =>
       console_log ("warning(skkeleton): can't write userJisyo to " ++ p) ;;;
       throw e) ;;;
  if negb (truthy rp) then ret tt
  else
    try_catch (writeTextFile rp (JSON_stringify (rankData d)))
      (fun e =>
         console_log ("warning(skkeleton): can't write candidate rank data to " ++ rp) ;;;
         throw e).

Definition save : M UState unit :=
  d <- this_ ;;
  if negb (truthy (path d)) then ret tt
  else
    c <- try_catch (writeFile (path d) (rankPath d) ;;; ret FellThrough)
           (fun e =>
              (if config_debug then console_log (Error_toString e) else ret tt) ;;;
              ret Returned) ;;
    match c with
    | Returned => ret tt
    | FellThrough =>
        stat <- try_catch (m <- host_call (Deno_stat_mtime (path d)) ;; ret (Some m))
                  (fun _ => ret None) ;;
        update (with_loadTime
                  match stat with Some (Some t) => t | _ => -1 end)
    end.

(* ------------------------------------------------------------------ *)
(** *** SkkServer *)

(** An open connection: the chunks the reader will still yield, oldest
    first (the stream ends after the last one), and the requests written
    so far, most recent first.  A byte array is a string of code units
    below 256. *)
Record Conn := { incoming : list string; outgoing : list string }.

Record SkkServer := {
  conn : option Conn;
  responseEncoding : string;
  requestEncoding : string
}.

(** The [for await] loop of [SkkServer.getCandidate]: the result array
    and the chunks left unread. *)
Fixpoint readResponse (enc : string) (chunks : list string) (result : list string)
  : list string * list string :=
  match chunks with
  | [] => (result, [])
  | res :: rest =>
      let str := decode_from enc res in
      let result' :=
        (result ++
           match JsString.at0 str with
           | Some 52%N => []
           | _ => JsArray.slice_1_m1 (JsString.split JsString.slash str)
           end)%list in
      if JsString.endsWith str JsString.newline then (result', rest)
      else readResponse enc rest result'
  end.

Definition SkkServer_getCandidate (word : string) (s : SkkServer)
  : list string * SkkServer :=
  match conn s with
  | None => ([], s)
  | Some c =>
      let request := encode_to (requestEncoding s) ("1" ++ word ++ " ") in
      let (result, rest) := readResponse (responseEncoding s) (incoming c) [] in
      (result,
       {| conn := Some {| incoming := rest; outgoing := request :: outgoing c |};
          responseEncoding := responseEncoding s;
          requestEncoding := requestEncoding s |})
  end.

Definition SkkServer_getCandidates (s : SkkServer) : CompletionData :=
  [("", [""])].

(* ------------------------------------------------------------------ *)
(** *** The Dictionary interface and its wrapper *)

(** The implementors of [Dictionary].  The user dictionary of a library
    is one object, held by the library and by its first source: a source
    refers to it rather than holding a copy. *)
Inductive Dictionary :=
| TheUserDictionary
| OfSKKDictionary (d : SKKDictionary)
| NumberConvertWrapper (inner : Dictionary)
| OfSkkServer (s : SkkServer).

Definition wrapDictionary (dict : Dictionary) : Dictionary :=
  NumberConvertWrapper dict.

(** [dic.getCandidate(type, word)], with the user dictionary [u] the
    reference resolves to; the source comes back with its connection
    state advanced. *)
Fixpoint Dictionary_getCandidate (u : UserDictionary) (dic : Dictionary)
    (type : HenkanType) (word : string) : list string * Dictionary :=
  match dic with
  | TheUserDictionary => (getCandidate type word u, dic)
  | OfSKKDictionary d => (SKKDictionary_getCandidate d type word, dic)
  | NumberConvertWrapper inner =>
      let realWord := replaceDigitRuns word in
      let (candidate, inner') := Dictionary_getCandidate u inner type realWord in
      (if JsString.eqb word realWord then candidate
       else map (fun c => convertNumber c word) candidate,
       NumberConvertWrapper inner')
  | OfSkkServer s =>
      let (r, s') := SkkServer_getCandidate word s in (r, OfSkkServer s')
  end.

(** [dic.getCandidates(prefix, feed)]; a query of the user dictionary
    fills its cache, so the user dictionary comes back too. *)
Fixpoint Dictionary_getCandidates (u : UserDictionary) (dic : Dictionary)
    (prefix feed : string) : CompletionData * UserDictionary :=
  match dic with
  | TheUserDictionary => getCandidates prefix feed u
  | OfSKKDictionary d => (SKKDictionary_getCandidates d prefix feed, u)
  | NumberConvertWrapper inner =>
      let realPrefix := replaceDigitRuns prefix in
      let (candidates, u') := Dictionary_getCandidates u inner realPrefix feed in
      (if JsString.eqb prefix realPrefix then candidates
       else map (fun kc : string * list string =>
                   (fst kc, map (fun c => convertNumber c prefix) (snd kc)))
              candidates,
       u')
  | OfSkkServer s => (SkkServer_getCandidates s, u)
  end.

(* ------------------------------------------------------------------ *)
(** *** Library *)

Record Library := {
  dictionaries : list Dictionary;
  userDictionary : UserDictionary
}.

(** [new Library(dictionaries, userDictionary)] *)
Definition Library_new (dicts : list Dictionary) (u : UserDictionary) : Library :=
  {| dictionaries := ([wrapDictionary TheUserDictionary] ++ dicts)%list;
     userDictionary := u |}.

(** The loop of [Library.getCandidate] over the sources. *)
Fixpoint mergeCandidates (u : UserDictionary) (dics : list Dictionary)
    (type : HenkanType) (word : string) (merged : JsSet.t)
  : JsSet.t * list Dictionary :=
  match dics with
  | [] => (merged, [])
  | dic :: rest =>
      let (cs, dic') := Dictionary_getCandidate u dic type word in
      let (m, rest') := mergeCandidates u rest type word (JsSet.addAll merged cs) in
      (m, dic' :: rest')
  end.

Definition Library_getCandidate (type : HenkanType) (word : string) (lib : Library)
  : list string * Library :=
  let (merged, dics) :=
    mergeCandidates (userDictionary lib) (dictionaries lib) type word [] in
  (merged, {| dictionaries := dics; userDictionary := userDictionary lib |}).

Definition gatherCandidates (collector : JsMap.t JsSet.t)
    (candidates : CompletionData) : JsMap.t JsSet.t :=
  fold_left
    (fun col (kc : string * list string) =>
       let set := match JsMap.get (fst kc) col with Some s => s | None => [] end in
       JsMap.set (fst kc) (JsSet.addAll set (snd kc)) col)
    candidates collector.

Definition Library_getCandidates (prefix feed : string) (lib : Library)
  : CompletionData * Library :=
  if JsString.len prefix <? 2 then ([], lib)
  else
    let (collector, u) :=
      fold_left
        (fun (acc : JsMap.t JsSet.t * UserDictionary) dic =>
           let (cs, u') := Dictionary_getCandidates (snd acc) dic prefix feed in
           (gatherCandidates (fst acc) cs, u'))
        (dictionaries lib) ([], userDictionary lib) in
    (collector, {| dictionaries := dictionaries lib; userDictionary := u |}).

Definition Library_getRanks (prefix : string) (lib : Library)
  : list (string * Z) * Library :=
  let (r, u) := getRanks prefix (userDictionary lib) in
  (r, {| dictionaries := dictionaries lib; userDictionary := u |}).

Definition LState : Type := Library * Runtime.

(** Run a method of the user dictionary on the library's own one. *)
Definition on_userDictionary {A} (c : M UState A) : M LState A :=
  fun s =>
    let (r, us) := c (userDictionary (fst s), snd s) in
    (r, ({| dictionaries := dictionaries (fst s); userDictionary := fst us |}, snd us)).

Definition date_now : M UState Z :=
  host_call (fun w => let (t, w') := Date_now w in (inr t, w')).

Definition Library_registerCandidate (type : HenkanType) (word candidate : string)
  : M LState unit :=
  on_userDictionary
    (if JsString.eqb candidate "" then ret tt
     else now <- date_now ;; update (registerCandidate type word candidate now)) ;;;
  if config_immediatelyJisyoRW then on_userDictionary save else ret tt.

Definition Library_purgeCandidate (type : HenkanType) (word candidate : string)
  : M LState unit :=
  on_userDictionary (update (purgeCandidate type word candidate)) ;;;
  if config_immediatelyJisyoRW then on_userDictionary save else ret tt.

Definition Library_load : M LState unit := on_userDictionary (load None None).

Definition Library_save : M LState unit := on_userDictionary save.

End Jisyo.

(* ================================================================== *)
(** ** Reference functions used in the statements *)

(** The list without its repeats, every element at the place where it
    first occurs. *)
Fixpoint uniq (l : list string) : list string :=
  match l with
  | [] => []
  | x :: l' => x :: filter (fun y => negb (JsString.eqb y x)) (uniq l')
  end.

(** What a comparator must satisfy for "sorted" to make sense: any two
    strings are comparable, and the order is transitive. *)
Record Collation (cmp : string -> string -> Z) : Prop := {
  collation_total : forall a b, cmp a b <= 0 \/ cmp b a <= 0;
  collation_trans : forall a b c, cmp a b <= 0 -> cmp b c <= 0 -> cmp a c <= 0
}.

(** What the decoder guarantees of every entry it stores: the key has no
    space, there is at least one candidate, no candidate has a slash,
    and nothing has a newline. *)
Definition entry_ok (e : string * list string) : Prop :=
  JsString.has JsString.space (fst e) = false /\
  JsString.has JsString.newline (fst e) = false /\
  snd e <> [] /\
  Forall (fun c => JsString.has JsString.slash c = false) (snd e) /\
  Forall (fun c => JsString.has JsString.newline c = false) (snd e).

Definition table_ok (m : Table) : Prop := JsMap.wf m /\ Forall entry_ok m.

(** Two maps with the same entries, whatever their insertion order. *)
Definition same_entries {V : Type} (m1 m2 : JsMap.t V) : Prop :=
  Permutation m1 m2 /\ forall k, JsMap.get k m1 = JsMap.get k m2.

(* ================================================================== *)
(** ** A host for examples

    Files live in memory with a modification time each; writing to a
    path listed in [denied] fails; the clock ticks at every write and at
    every [Date.now()].  Strings are compared code unit by code unit,
    numbers are integers, encodings are the identity, and the JSON
    functions cover arrays of strings that need no escaping. *)

Module Example.

Record MemWorld := {
  files : JsMap.t (string * Z);
  denied : list string;
  clock : Z
}.

Definition mem_readTextFile (p : string) (w : MemWorld) : (Error + string) * MemWorld :=
  match JsMap.get p (files w) with
  | Some f => (inr (fst f), w)
  | None => (inl (JsError "NotFound" p), w)
  end.

Definition mem_stat_mtime (p : string) (w : MemWorld) : (Error + option Z) * MemWorld :=
  match JsMap.get p (files w) with
  | Some f => (inr (Some (snd f)), w)
  | None => (inl (JsError "NotFound" p), w)
  end.

Definition mem_writeTextFile (p data : string) (w : MemWorld)
  : (Error + unit) * MemWorld :=
  if existsb (JsString.eqb p) (denied w) then (inl (JsError "PermissionDenied" p), w)
  else (inr tt,
        {| files := JsMap.set p (data, clock w) (files w);
           denied := denied w;
           clock := clock w + 1 |}).

Definition mem_now (w : MemWorld) : Z * MemWorld :=
  (clock w, {| files := files w; denied := denied w; clock := clock w + 1 |}).

Definition dquote : string := String JsString.dquote EmptyString.

Definition mem_stringify (l : list string) : string :=
  "[" ++ JsString.join "," (map (fun c => dquote ++ c ++ dquote) l) ++ "]".

Definition mem_item (p : string) : JSON :=
  if JsString.startsWith p dquote && JsString.endsWith p JsString.dquote
     && (2 <=? JsString.len p)
  then JString (JsString.slice p 1 (-1))
  else JNumber p.

Definition mem_parse (s : string) : Error + JSON :=
  if JsString.eqb s "null" then inr JNull
  else if JsString.startsWith s "[" && JsString.endsWith s JsString.rbracket then
    let inner := JsString.slice s 1 (-1) in
    if JsString.eqb inner "" then inr (JArray [])
    else inr (JArray (map mem_item (JsString.split JsString.comma inner)))
  else inl (JsError "SyntaxError" "Unexpected token").

Definition unitCompare (a b : string) : Z :=
  match JsString.compare a b with Lt => -1 | Eq => 0 | Gt => 1 end.

Fixpoint digitsToZ (s : string) (acc : Z) : Z :=
  match s with
  | EmptyString => acc
  | String c s' =>
      if ((48 <=? c) && (c <=? 57))%N then digitsToZ s' (10 * acc + Z.of_N (c - 48))
      else acc
  end.

Fixpoint digitsOf (fuel : nat) (n : Z) (acc : string) : string :=
  match fuel with
  | O => acc
  | S fuel' =>
      let acc' := String (48 + Z.to_N (n mod 10)) acc in
      if n <? 10 then acc' else digitsOf fuel' (n / 10) acc'
  end.

Definition mem_toString (n : Z) : string := digitsOf (S (Z.to_nat n)) n "".

Definition kanjiDigit (d : Z) : string :=
  nth (Z.to_nat d) ["〇"; "一"; "二"; "三"; "四"; "五"; "六"; "七"; "八"; "九"] "".

Definition kanjiPlace (d : Z) (unit : string) (bare : bool) : string :=
  if d =? 0 then "" else if (d =? 1) && bare then unit else kanjiDigit d ++ unit.

(** Place-value numerals, adequate below ten thousand. *)
Definition mem_number2kanji (n : Z) : string :=
  if n =? 0 then "〇"
  else kanjiPlace (n / 1000 mod 10) "千" true ++ kanjiPlace (n / 100 mod 10) "百" true
       ++ kanjiPlace (n / 10 mod 10) "十" true ++ kanjiPlace (n mod 10) "" false.

#[export] Instance host : Host := {|
  World := MemWorld;
  Deno_readTextFile := mem_readTextFile;
  Deno_stat_mtime := mem_stat_mtime;
  Deno_writeTextFile := mem_writeTextFile;
  Date_now := mem_now;
  JSON_parse := mem_parse;
  JSON_stringify := mem_stringify;
  localeCompare := unitCompare;
  getKanaTable := [("a", ["あ"; ""]); ("ka", ["か"; ""]); ("ki", ["き"; ""]);
                   ("sa", ["さ"; ""]); ("ta", ["た"; ""]); ("tt", ["っ"; "t"])];
  config_debug := false;
  config_immediatelyJisyoRW := false;
  JsNumber := Z;
  parseInt := fun s => digitsToZ s 0;
  Number_toString := mem_toString;
  number2kanji := mem_number2kanji;
  encode_to := fun _ s => s;
  decode_from := fun _ s => s
|}.

(** An empty world at time [t]. *)
Definition emptyWorld (t : Z) : MemWorld := {| files := []; denied := []; clock := t |}.

Definition start (w : MemWorld) : Runtime := {| world := w; trace := [] |}.

Definition nl : string := String JsString.newline EmptyString.

(** A dictionary file one of whose entries lists a candidate twice. *)
Definition repeatText : string :=
  ";; okuri-ari entries." ++ nl ++ ";; okuri-nasi entries." ++ nl ++ "k /a/a/" ++ nl.

Definition repeatWorld : MemWorld :=
  {| files := [("/jisyo", (repeatText, 100))]; denied := []; clock := 200 |}.

(** The user dictionary after loading that file. *)
Definition repeatDict : UserDictionary :=
  fst (snd (load (Some "/jisyo") None (UserDictionary_new [] [] [], start repeatWorld))).

(** A user dictionary with one okuri-nasi entry, after one completion
    query for its key. *)
Definition queriedDict : UserDictionary :=
  snd (getCandidates "あい" "" (UserDictionary_new [] [("あい", ["愛"])] [])).

(** The global dictionary of the tests. *)
Definition globalJisyo : SKKDictionary :=
  {| skk_okuriAri := [("てすt", ["テスト"])];
     skk_okuriNasi := [("てすと", ["テスト"; "test"])] |}.

(** A server with an open connection on which the given chunks will
    arrive. *)
Definition serverWith (chunks : list string) : SkkServer :=
  {| conn := Some {| incoming := chunks; outgoing := [] |};
     responseEncoding := "euc-jp";
     requestEncoding := "euc-jp" |}.

(** A user dictionary configured with a dictionary path and a rank path,
    holding one registered candidate. *)
Definition pathDict : UserDictionary :=
  with_paths "/jisyo" "/rank"
    (registerCandidate okurinasi "あい" "愛" 50 (UserDictionary_new [] [] [])).

(** A world where the dictionary file cannot be written. *)
Definition deniedWorld : MemWorld :=
  {| files := []; denied := ["/jisyo"]; clock := 200 |}.

(** A world with a dictionary file and a rank file holding [null]. *)
Definition nullRankWorld : MemWorld :=
  {| files := [("/jisyo", (repeatText, 100)); ("/rank", ("null", 100))];
     denied := []; clock := 200 |}.

End Example.

(* ================================================================== *)
(** ** Further operations, invariants and sample data *)

(** A digit occurs in [s]. *)
Fixpoint hasDigit (s : string) : bool :=
  match s with
  | EmptyString => false
  | String c s' => isDigit c || hasDigit s'
  end.

(** Every code unit of [s] is a digit. *)
Fixpoint allDigits (s : string) : bool :=
  match s with
  | EmptyString => true
  | String c s' => isDigit c && allDigits s'
  end.

(** No entry of the table lists a candidate twice. *)
Definition entries_unique (m : Table) : Prop := Forall (fun e => NoDup (snd e)) m.

(** Both tables of a user dictionary are maps without a repeated key
    and without a repeated candidate in any entry. *)
Definition dictionary_unique (d : UserDictionary) : Prop :=
  JsMap.wf (okuriAri d) /\ JsMap.wf (okuriNasi d) /\
  entries_unique (okuriAri d) /\ entries_unique (okuriNasi d).

(** Both tables of a user dictionary are well formed for the text
    format. *)
Definition dictionary_ok (d : UserDictionary) : Prop :=
  table_ok (okuriAri d) /\ table_ok (okuriNasi d).

Section JisyoInvariants.
Context {host : Host}.

(** The cache of a user dictionary is fresh: unless the cached prefix is
    the empty string, the cached completion is what a search of the
    present table gives for the cached prefix and feed. *)
Definition cache_fresh (d : UserDictionary) : Prop :=
  cachedPrefix d <> "" ->
  cachedCandidates d
    = searchCandidates (okuriNasi d) (cachedPrefix d) (cachedFeed d).

(** What [SkkServer.getCandidate] takes from one chunk of the
    response. *)
Definition chunkCandidates (enc res : string) : list string :=
  match JsString.at0 (decode_from enc res) with
  | Some 52%N => []
  | _ => JsArray.slice_1_m1 (JsString.split JsString.slash (decode_from enc res))
  end.

(** How [convertNumber] renders the digits [ds] for the marker with
    format digit [k]. *)
Definition renderNumber (k : N) (ds : string) : string :=
  if N.eqb k 49 then toZenkaku (parseInt ds)
  else if N.eqb k 50 then toKanjiModern (parseInt ds)
  else if N.eqb k 51 then toKanjiClassic (parseInt ds)
  else ds.

(** [SKKDictionary.load(path, encoding)], given what [new
    TextDecoder(encoding)] and [Deno.readFile(path)] do: the outcome, the
    dictionary and the world afterwards. *)
Definition SKKDictionary_load
    (TextDecoder_new : string -> Error + unit)
    (Deno_readFile : string -> World -> (Error + string) * World)
    (path encoding : string) (d : SKKDictionary) (w : World)
  : (Error + unit) * SKKDictionary * World :=
  let fresh := {| skk_okuriAri := []; skk_okuriNasi := [] |} in
  match TextDecoder_new encoding with
  | inl e => (inl e, fresh, w)
  | inr _ =>
      match Deno_readFile path w with
      | (inl e, w') => (inl e, fresh, w')
      | (inr bytes, w') =>
          let t := readLines
                     (JsString.split JsString.newline (decode_from encoding bytes))
                     (-1) (skk_okuriAri fresh) (skk_okuriNasi fresh) in
          (inr tt, {| skk_okuriAri := fst t; skk_okuriNasi := snd t |}, w')
      end
  end.

End JisyoInvariants.

Module Sample.

Definition nl : string := String JsString.newline EmptyString.

(** Two tables as a user dictionary may hold them. *)
Definition ariTable : Table := [("かe", ["買"]); ("あr", ["有"; "在"])].
Definition nasiTable : Table := [("い", ["胃"]); ("あい", ["愛"; "藍"])].

(** A user dictionary holding them, with two ranked candidates. *)
Definition dict : UserDictionary :=
  UserDictionary_new ariTable nasiTable [("愛", 30); ("胃", 10)].

(** The same dictionary as it is after loading "/jisyo" at time 100. *)
Definition loadedDict : UserDictionary :=
  with_loadTime 100 (with_paths "/jisyo" "" dict).

(** A world whose file "/jisyo" holds the sample tables as [writeFile]
    writes them, and whose file "/rank" holds a rank array; both files
    were written at time 100. *)
Definition savedWorld : Example.MemWorld :=
  {| Example.files :=
       [("/jisyo", (@encode Example.host (ariTable, nasiTable), 100));
        ("/rank", (Example.mem_stringify ["胃"; "愛"], 100))];
     Example.denied := [];
     Example.clock := 200 |}.

(** The same world with "/jisyo" locked. *)
Definition lockedWorld : Example.MemWorld :=
  {| Example.files := Example.files savedWorld;
     Example.denied := ["/jisyo"];
     Example.clock := 200 |}.

(** The example host, on which moreover a locked file cannot be read. *)
Definition locked_readTextFile (p : string) (w : Example.MemWorld)
  : (Error + string) * Example.MemWorld :=
  if existsb (JsString.eqb p) (Example.denied w)
  then (inl (JsError "PermissionDenied" p), w)
  else Example.mem_readTextFile p w.

Definition lockedHost : Host := {|
  World := Example.MemWorld;
  Deno_readTextFile := locked_readTextFile;
  Deno_stat_mtime := Example.mem_stat_mtime;
  Deno_writeTextFile := Example.mem_writeTextFile;
  Date_now := Example.mem_now;
  JSON_parse := Example.mem_parse;
  JSON_stringify := Example.mem_stringify;
  localeCompare := Example.unitCompare;
  getKanaTable := @getKanaTable Example.host;
  config_debug := false;
  config_immediatelyJisyoRW := false;
  JsNumber := Z;
  parseInt := @parseInt Example.host;
  Number_toString := Example.mem_toString;
  number2kanji := Example.mem_number2kanji;
  encode_to := fun _ s => s;
  decode_from := fun _ s => s
|}.

Definition lockedStart : @Runtime lockedHost :=
  @Build_Runtime lockedHost lockedWorld [].

End Sample.

(* ================================================================== *)
(** * Properties *)

(** ** Facts about the string operations *)

Module JsStringFacts.
Import JsString.

Lemma eqb_eq (a b : string) : eqb a b = true <-> a = b.
Proof.
  revert b. induction a as [|u a IH]; destruct b as [|v b]; simpl;
    try (split; (discriminate || reflexivity)).
  rewrite andb_true_iff, N.eqb_eq, IH. split.
  - intros [-> ->]. reflexivity.
  - intros [= -> ->]. now split.
Qed.

Lemma eqb_spec (a b : string) : reflect (a = b) (eqb a b).
Proof. apply iff_reflect. symmetry. apply eqb_eq. Qed.

Lemma eqb_refl (a : string) : eqb a a = true.
Proof. now apply eqb_eq. Qed.

Lemma eqb_neq (a b : string) : eqb a b = false <-> a <> b.
Proof. destruct (eqb_spec a b); split; congruence. Qed.

Lemma eqb_sym (a b : string) : eqb a b = eqb b a.
Proof. destruct (eqb_spec a b), (eqb_spec b a); congruence. Qed.

Lemma compare_eq (a b : string) : compare a b = Eq -> a = b.
Proof.
  revert b. induction a as [|u a IH]; destruct b as [|v b]; simpl;
    try (discriminate || reflexivity).
  destruct (N.compare_spec u v) as [->| |]; try discriminate.
  intros Hc. f_equal. now apply IH.
Qed.

Lemma compare_antisym (a b : string) : compare a b = CompOpp (compare b a).
Proof.
  revert b. induction a as [|u a IH]; destruct b as [|v b]; simpl; try reflexivity.
  rewrite (N.compare_antisym v u). destruct (N.compare v u); simpl; auto.
Qed.

Lemma compare_lt_trans (a b c : string) :
  compare a b = Lt -> compare b c = Lt -> compare a c = Lt.
Proof.
  revert b c. induction a as [|u a IH]; destruct b as [|v b]; destruct c as [|w c];
    simpl; try (discriminate || reflexivity).
  destruct (N.compare_spec u v) as [->|Huv|Huv]; try discriminate.
  - destruct (N.compare w v) eqn:E; rewrite (N.compare_antisym w v), E; simpl;
      try discriminate; auto.
    apply IH.
  - intros _. destruct (N.compare_spec v w) as [->|Hvw|Hvw]; try discriminate.
    + intros _. apply N.compare_lt_iff in Huv. now rewrite Huv.
    + intros _. assert (H : (u < w)%N) by lia. apply N.compare_lt_iff in H.
      now rewrite H.
Qed.

Lemma append_assoc (a b c : string) : (a ++ b) ++ c = a ++ (b ++ c).
Proof. induction a as [|x a IH]; simpl; [reflexivity | now rewrite IH]. Qed.

Lemma append_nil_r (a : string) : a ++ "" = a.
Proof. induction a as [|x a IH]; simpl; [reflexivity | now rewrite IH]. Qed.

Lemma length_append (a b : string) :
  JsString.length (a ++ b) = (JsString.length a + JsString.length b)%nat.
Proof. induction a as [|x a IH]; simpl; [reflexivity | now rewrite IH]. Qed.

Lemma has_append (c : N) (a b : string) :
  has c (a ++ b) = has c a || has c b.
Proof.
  induction a as [|x a IH]; simpl; [reflexivity|].
  rewrite IH. now rewrite orb_assoc.
Qed.

Lemma has_skip (c : N) (s : string) (n : nat) :
  has c s = false -> has c (skip n s) = false.
Proof.
  revert n. induction s as [|x s IH]; intros n H; destruct n as [|n]; try exact H.
  simpl in H. apply orb_false_iff in H as [_ Hs]. simpl. now apply IH.
Qed.

Lemma has_take (c : N) (s : string) (m : nat) :
  has c s = false -> has c (take m s) = false.
Proof.
  revert m. induction s as [|x s IH]; intros m H; destruct m as [|m]; try reflexivity.
  simpl in H. apply orb_false_iff in H as [Hx Hs]. simpl. rewrite Hx. now apply IH.
Qed.

Lemma has_substring (c : N) (s : string) :
  has c s = false -> forall n m, has c (JsString.substr n m s) = false.
Proof. intros H n m. unfold substr. now apply has_take, has_skip. Qed.

Lemma substring_prefix (a b : string) :
  JsString.substr 0 (JsString.length a) (a ++ b) = a.
Proof.
  unfold substr. cbn [skip].
  induction a as [|x a IH]; simpl; [reflexivity | now rewrite IH].
Qed.

Lemma substring_skip (a b : string) (n m : nat) :
  JsString.substr (JsString.length a + n) m (a ++ b) = JsString.substr n m b.
Proof.
  unfold substr. f_equal.
  induction a as [|x a IH]; simpl; [reflexivity | exact IH].
Qed.

(** The first occurrence of [c] in [k ++ c :: r] is right after [k] when
    [k] is free of [c]. *)
Lemma indexOf_first (c : N) (k r : string) :
  has c k = false -> indexOf c (k ++ String c r) = len k.
Proof.
  unfold len. induction k as [|x k IH]; intros H.
  - simpl. now rewrite N.eqb_refl.
  - simpl in H. apply orb_false_iff in H as [Hx Hk].
    cbn [append indexOf]. rewrite Hx, (IH Hk).
    destruct (Z.eqb_spec (Z.of_nat (JsString.length k)) (-1)); [lia|].
    cbn [JsString.length]. lia.
Qed.

Lemma indexOf_absent (c : N) (s : string) :
  has c s = false -> indexOf c s = -1.
Proof.
  induction s as [|x s IH]; intros H; [reflexivity|].
  simpl in H. apply orb_false_iff in H as [Hx Hs].
  simpl. now rewrite Hx, (IH Hs).
Qed.

Lemma indexOf_range (c : N) (s : string) :
  indexOf c s = -1 \/ 0 <= indexOf c s < len s.
Proof.
  unfold len. induction s as [|x s IH]; [now left|].
  cbn [indexOf JsString.length]. destruct (N.eqb x c); [right; lia|].
  destruct (Z.eqb_spec (indexOf c s) (-1)); [now left | right; lia].
Qed.

(** The text before the first [c] is free of [c]. *)
Lemma has_before_indexOf (c : N) (s : string) :
  has c (JsString.substr 0 (Z.to_nat (indexOf c s)) s) = false.
Proof.
  induction s as [|x s IH]; [reflexivity|].
  cbn [indexOf]. destruct (N.eqb x c) eqn:E; [reflexivity|].
  destruct (Z.eqb_spec (indexOf c s) (-1)) as [Hm|Hm]; [reflexivity|].
  destruct (indexOf_range c s) as [?|Hr]; [contradiction|].
  replace (Z.to_nat (indexOf c s + 1)) with (S (Z.to_nat (indexOf c s))) by lia.
  unfold substr in *. cbn [skip take has] in *. rewrite E. exact IH.
Qed.

Lemma split_not_nil (sep : N) (s : string) : split sep s <> [].
Proof.
  induction s as [|x s IH]; simpl; [discriminate|].
  destruct (N.eqb x sep); [discriminate|].
  destruct (split sep s); [contradiction | discriminate].
Qed.

(** No piece of a split holds the separator, nor any character the
    whole string is free of. *)
Lemma split_pieces (sep c : N) (s : string) :
  (c = sep \/ has c s = false) ->
  Forall (fun p => has c p = false) (split sep s).
Proof.
  induction s as [|x s IH]; intros H.
  - repeat constructor.
  - assert (H' : c = sep \/ has c s = false).
    { destruct H as [H|H]; [now left|]. simpl in H.
      apply orb_false_iff in H as [_ H]. now right. }
    specialize (IH H'). simpl.
    destruct (N.eqb x sep) eqn:E.
    + constructor; [reflexivity | exact IH].
    + destruct (split sep s) as [|h t]; [repeat constructor|].
      * simpl. rewrite orb_false_r. destruct H as [->|H]; [exact E|].
        simpl in H. now apply orb_false_iff in H as [H _].
      * inversion IH; subst. constructor; [|assumption].
        simpl. apply orb_false_iff. split; [|assumption].
        destruct H as [->|H]; [exact E|].
        simpl in H. now apply orb_false_iff in H as [H _].
Qed.

Lemma split_free (sep : N) (s : string) :
  has sep s = false -> split sep s = [s].
Proof.
  induction s as [|x s IH]; intros H; [reflexivity|].
  simpl in H. apply orb_false_iff in H as [Hx Hs].
  simpl. now rewrite Hx, (IH Hs).
Qed.

Lemma split_append (sep : N) (a b : string) :
  has sep a = false ->
  split sep (a ++ String sep b) = a :: split sep b.
Proof.
  induction a as [|x a IH]; intros H.
  - simpl. now rewrite N.eqb_refl.
  - simpl in H. apply orb_false_iff in H as [Hx Ha].
    cbn [append split]. now rewrite Hx, (IH Ha).
Qed.

(** Splitting what [join] glued gives the pieces back, as long as there
    is at least one piece and none holds the separator. *)
Lemma split_join (sep : N) (l : list string) :
  l <> [] ->
  Forall (fun p => has sep p = false) l ->
  split sep (join (String sep "") l) = l.
Proof.
  induction l as [|x l IH]; intros Hne Hl; [contradiction|].
  inversion Hl as [|? ? Hx Hl']; subst.
  destruct l as [|y l].
  - simpl. now apply split_free.
  - cbn [join]. cbn [append]. rewrite split_append by assumption.
    f_equal. apply IH; [discriminate | assumption].
Qed.

Lemma has_join (c : N) (sep : string) (l : list string) :
  has c sep = false ->
  Forall (fun p => has c p = false) l ->
  has c (join sep l) = false.
Proof.
  intros Hsep. induction l as [|x l IH]; intros Hl; [reflexivity|].
  inversion Hl as [|? ? Hx Hl']; subst.
  destruct l as [|y l]; [exact Hx|].
  cbn [join]. rewrite !has_append, Hx, Hsep. simpl. now apply IH.
Qed.

End JsStringFacts.

(** ** Facts about maps, sets and sorting *)

Module JsMapFacts.
Import JsMap.

Section Facts.
Context {V : Type}.
Implicit Types (m : JsMap.t V) (k : string) (v : V).

Lemma get_set_same m k v : get k (set k v m) = Some v.
Proof.
  induction m as [|[k' v'] m IH]; simpl.
  - now rewrite JsStringFacts.eqb_refl.
  - destruct (JsStringFacts.eqb_spec k' k); simpl.
    + now rewrite JsStringFacts.eqb_refl.
    + destruct (JsStringFacts.eqb_spec k' k); [contradiction | exact IH].
Qed.

Lemma get_set_other m k k' v : k' <> k -> get k' (set k v m) = get k' m.
Proof.
  intros Hne. induction m as [|[k0 v0] m IH]; simpl.
  - destruct (JsStringFacts.eqb_spec k k'); [congruence | reflexivity].
  - destruct (JsStringFacts.eqb_spec k0 k); simpl.
    + subst. destruct (JsStringFacts.eqb_spec k k'); [congruence | reflexivity].
    + destruct (JsStringFacts.eqb_spec k0 k'); [reflexivity | exact IH].
Qed.

Lemma get_delete_same m k : get k (delete k m) = None.
Proof.
  unfold delete. induction m as [|[k' v'] m IH]; simpl; [reflexivity|].
  destruct (JsStringFacts.eqb_spec k' k); simpl; [exact IH|].
  destruct (JsStringFacts.eqb_spec k' k); [contradiction | exact IH].
Qed.

Lemma get_delete_other m k k' : k' <> k -> get k' (delete k m) = get k' m.
Proof.
  intros Hne. unfold delete. induction m as [|[k0 v0] m IH]; simpl; [reflexivity|].
  destruct (JsStringFacts.eqb_spec k0 k); simpl.
  - subst. destruct (JsStringFacts.eqb_spec k k'); [congruence | exact IH].
  - destruct (JsStringFacts.eqb_spec k0 k'); [reflexivity | exact IH].
Qed.

Lemma get_absent m k : ~ In k (keys m) -> get k m = None.
Proof.
  induction m as [|[k' v'] m IH]; simpl; intros H; [reflexivity|].
  destruct (JsStringFacts.eqb_spec k' k); [tauto | apply IH; tauto].
Qed.

Lemma get_In m k v : wf m -> (get k m = Some v <-> In (k, v) m).
Proof.
  unfold wf. induction m as [|[k' v'] m IH]; simpl; intros Hwf.
  - split; [discriminate | tauto].
  - inversion Hwf as [|? ? Hnotin Hwf']; subst.
    destruct (JsStringFacts.eqb_spec k' k) as [->|Hne].
    + split.
      * intros [= ->]. now left.
      * intros [[= ->]|Hin]; [reflexivity|].
        exfalso. apply Hnotin. change k with (fst (k, v)). now apply in_map.
    + rewrite (IH Hwf'). split; [tauto|].
      intros [[= -> ->]|Hin]; [contradiction | assumption].
Qed.

Lemma keys_set m k v k' : In k' (keys (set k v m)) <-> k' = k \/ In k' (keys m).
Proof.
  induction m as [|[k0 v0] m IH]; simpl.
  - intuition.
  - destruct (JsStringFacts.eqb_spec k0 k); simpl; [subst; intuition|].
    rewrite IH. intuition.
Qed.

Lemma wf_set m k v : wf m -> wf (set k v m).
Proof.
  unfold wf. induction m as [|[k0 v0] m IH]; simpl; intros H.
  - repeat constructor. tauto.
  - inversion H as [|? ? Hnotin H']; subst.
    destruct (JsStringFacts.eqb_spec k0 k); simpl.
    + subst. now constructor.
    + constructor; [|now apply IH].
      intros Hin. apply keys_set in Hin. destruct Hin; [congruence | contradiction].
Qed.

Lemma wf_delete m k : wf m -> wf (delete k m).
Proof.
  unfold wf, delete. induction m as [|[k0 v0] m IH]; simpl; intros H; [constructor|].
  inversion H as [|? ? Hnotin H']; subst.
  destruct (JsString.eqb k0 k); simpl; [now apply IH|].
  constructor; [|now apply IH].
  intros Hin. apply Hnotin. unfold keys in *.
  apply in_map_iff in Hin as [e [He Hin]]. apply filter_In in Hin as [Hin _].
  apply in_map_iff. now exists e.
Qed.

Lemma Forall_set (P : string * V -> Prop) m k v :
  Forall P m -> P (k, v) -> Forall P (set k v m).
Proof.
  induction m as [|[k0 v0] m IH]; simpl; intros Hm Hkv.
  - now constructor.
  - inversion Hm; subst. destruct (JsString.eqb k0 k); constructor; auto.
Qed.

Lemma set_fresh m k v : ~ In k (keys m) -> set k v m = (m ++ [(k, v)])%list.
Proof.
  induction m as [|[k0 v0] m IH]; simpl; intros H; [reflexivity|].
  destruct (JsStringFacts.eqb_spec k0 k); [tauto|].
  f_equal. apply IH. tauto.
Qed.

(** Setting entries with fresh, distinct keys one after the other
    appends them in order. *)
Lemma set_all_fresh (l : list (string * V)) m :
  wf (m ++ l)%list ->
  fold_left (fun acc e => set (fst e) (snd e) acc) l m = (m ++ l)%list.
Proof.
  revert m. induction l as [|[k v] l IH]; intros m Hwf; simpl.
  - now rewrite app_nil_r.
  - assert (Hfresh : ~ In k (keys m)).
    { unfold wf, keys in Hwf. rewrite map_app in Hwf. simpl in Hwf.
      apply NoDup_remove_2 in Hwf. intros Hin. apply Hwf. apply in_or_app. now left. }
    rewrite (set_fresh _ _ _ Hfresh).
    rewrite IH; rewrite <- app_assoc; [reflexivity | exact Hwf].
Qed.

Lemma wf_Permutation m m' : Permutation m m' -> wf m -> wf m'.
Proof.
  unfold wf, keys. intros Hp. apply Permutation_NoDup. now apply Permutation_map.
Qed.

Lemma get_Permutation m m' k : wf m -> Permutation m m' -> get k m = get k m'.
Proof.
  intros Hwf Hp. pose proof (wf_Permutation _ _ Hp Hwf) as Hwf'.
  destruct (get k m) as [v|] eqn:E.
  - symmetry. apply (get_In _ _ _ Hwf'). apply (Permutation_in _ Hp).
    now apply (get_In _ _ _ Hwf).
  - destruct (get k m') as [v|] eqn:E'; [|reflexivity].
    apply (get_In _ _ _ Hwf') in E'. apply (Permutation_in _ (Permutation_sym Hp)) in E'.
    apply (get_In _ _ _ Hwf) in E'. congruence.
Qed.

End Facts.
End JsMapFacts.

Module JsArrayFacts.
Import JsArray.

Section Facts.
Context {A : Type} (cmp : A -> A -> Z).

Lemma insert_Permutation (x : A) (l : list A) : Permutation (insert cmp x l) (x :: l).
Proof.
  induction l as [|y l IH]; simpl; [reflexivity|].
  destruct (cmp x y <=? 0); [reflexivity|].
  rewrite IH. apply perm_swap.
Qed.

Lemma sort_Permutation (l : list A) : Permutation (sort cmp l) l.
Proof.
  induction l as [|x l IH]; simpl; [reflexivity|].
  rewrite insert_Permutation. now constructor.
Qed.

Hypothesis cmp_total : forall a b, cmp a b <= 0 \/ cmp b a <= 0.
Hypothesis cmp_trans : forall a b c, cmp a b <= 0 -> cmp b c <= 0 -> cmp a c <= 0.

Lemma insert_sorted (x : A) (l : list A) :
  StronglySorted (fun a b => cmp a b <= 0) l ->
  StronglySorted (fun a b => cmp a b <= 0) (insert cmp x l).
Proof.
  induction l as [|y l IH]; simpl; intros Hs.
  - repeat constructor.
  - inversion Hs as [|? ? Hs' Hy]; subst.
    destruct (Z.leb_spec (cmp x y) 0) as [Hle|Hgt].
    + constructor; [exact Hs|]. constructor; [exact Hle|].
      eapply Forall_impl; [|exact Hy]. intros z Hz. now apply (cmp_trans x y z).
    + constructor; [now apply IH|].
      apply (Permutation_Forall (Permutation_sym (insert_Permutation x l))).
      constructor; [|exact Hy]. destruct (cmp_total x y); [lia | assumption].
Qed.

Lemma sort_sorted (l : list A) : StronglySorted (fun a b => cmp a b <= 0) (sort cmp l).
Proof.
  induction l as [|x l IH]; simpl; [constructor | now apply insert_sorted].
Qed.

End Facts.
End JsArrayFacts.

Module JsSetFacts.
Import JsSet.

Lemma filter_filter_comm (f g : string -> bool) (l : list string) :
  filter f (filter g l) = filter g (filter f l).
Proof.
  induction l as [|x l IH]; simpl; [reflexivity|].
  destruct (f x) eqn:Ef, (g x) eqn:Eg; simpl; rewrite ?Ef, ?Eg, IH; reflexivity.
Qed.

Lemma uniq_filter (f : string -> bool) (l : list string) :
  uniq (filter f l) = filter f (uniq l).
Proof.
  induction l as [|x l IH]; simpl; [reflexivity|].
  destruct (f x) eqn:Ef; simpl; rewrite ?Ef, IH.
  - f_equal. apply filter_filter_comm.
  - rewrite filter_filter_comm. symmetry. apply forallb_filter_id.
    apply forallb_forall. intros y Hy. apply filter_In in Hy as [_ Hy].
    destruct (JsStringFacts.eqb_spec y x); [congruence | reflexivity].
Qed.

Lemma has_app (x : string) (s1 s2 : t) : has x (s1 ++ s2)%list = has x s1 || has x s2.
Proof. unfold has. apply existsb_app. Qed.

(** Adding a list to a set appends the elements that are new, each once,
    in the order they first come. *)
Lemma addAll_spec (l : list string) (s : t) :
  addAll s l = (s ++ uniq (filter (fun x => negb (has x s)) l))%list.
Proof.
  unfold addAll. revert s. induction l as [|x l IH]; intros s; simpl.
  - now rewrite app_nil_r.
  - rewrite IH. unfold add. destruct (has x s) eqn:E; simpl; [reflexivity|].
    rewrite <- app_assoc. simpl. do 2 f_equal.
    rewrite <- uniq_filter. f_equal. clear IH.
    induction l as [|y l IHl]; simpl; [reflexivity|].
    rewrite has_app. simpl. rewrite orb_false_r.
    destruct (has y s); simpl.
    + exact IHl.
    + rewrite JsStringFacts.eqb_sym. destruct (JsString.eqb x y); simpl; [|f_equal]; exact IHl.
Qed.

Lemma from_uniq (l : list string) : from l = uniq l.
Proof.
  unfold from. rewrite addAll_spec. simpl. f_equal.
  induction l as [|x l IH]; simpl; [reflexivity | now rewrite IH].
Qed.

Lemma addAll_app (s : t) (l1 l2 : list string) :
  addAll s (l1 ++ l2)%list = addAll (addAll s l1) l2.
Proof. unfold addAll. apply fold_left_app. Qed.

Lemma uniq_In (x : string) (l : list string) : In x (uniq l) <-> In x l.
Proof.
  induction l as [|y l IH]; simpl; [tauto|].
  rewrite filter_In, IH. destruct (JsStringFacts.eqb_spec x y); subst; intuition congruence.
Qed.

Lemma uniq_NoDup (l : list string) : NoDup (uniq l).
Proof.
  induction l as [|y l IH]; simpl; constructor.
  - rewrite filter_In. intros [_ H]. now rewrite JsStringFacts.eqb_refl in H.
  - now apply NoDup_filter.
Qed.

Lemma uniq_id (l : list string) : NoDup l -> uniq l = l.
Proof.
  induction l as [|y l IH]; simpl; intros H; [reflexivity|].
  inversion H as [|? ? Hnotin H']; subst. rewrite (IH H'). f_equal.
  apply forallb_filter_id. apply forallb_forall. intros x Hx.
  destruct (JsStringFacts.eqb_spec x y); [subst; contradiction | reflexivity].
Qed.

End JsSetFacts.

(** ** The dictionary text format *)

Section Codec.
Context {host : Host}.
Import JsString JsStringFacts.

Lemma endsWith_append (a : string) (c : N) : endsWith (a ++ String c "") c = true.
Proof.
  induction a as [|x a IH]; simpl; [apply N.eqb_refl|].
  destruct (a ++ String c "") eqn:E; [destruct a; discriminate | exact IH].
Qed.

Lemma entryLine_shape (e : string * list string) :
  entryLine e = (fst e ++ " /" ++ join "/" (snd e)) ++ String slash "".
Proof. unfold entryLine. now rewrite !append_assoc. Qed.

Lemma entryLine_not_marker (e : string * list string) :
  JsString.eqb (entryLine e) okuriAriMarker = false /\
  JsString.eqb (entryLine e) okuriNasiMarker = false.
Proof.
  pose proof (endsWith_append (fst e ++ " /" ++ join "/" (snd e)) slash) as H.
  rewrite <- entryLine_shape in H.
  split; apply JsStringFacts.eqb_neq; intros E; rewrite E in H; discriminate H.
Qed.

Lemma entryLine_newline_free (e : string * list string) :
  entry_ok e -> has newline (entryLine e) = false.
Proof.
  intros (_ & Hk & _ & _ & Hc). unfold entryLine.
  rewrite !has_append, Hk, (has_join newline "/" (snd e) eq_refl Hc). reflexivity.
Qed.

Lemma slice_to_last (s : string) (start : Z) :
  0 <= start <= len s - 1 ->
  slice s start (-1)
    = JsString.substr (Z.to_nat start) (Z.to_nat (len s - 1 - start)) s.
Proof.
  intros H. unfold slice. destruct (Z.ltb_spec start 0); [lia|].
  change (-1 <? 0) with true. cbv iota.
  rewrite Z.min_l, Z.max_l by lia. reflexivity.
Qed.

Lemma entryLine_length (e : string * list string) :
  len (entryLine e) = len (fst e) + 2 + len (join "/" (snd e)) + 1.
Proof. unfold entryLine, len. rewrite !length_append. simpl. lia. Qed.

(** Reading back a line that [writeFile] produced gives the key and the
    candidates it was made of. *)
Lemma entryLine_parse (e : string * list string) :
  entry_ok e ->
  indexOf space (entryLine e) = len (fst e) /\
  substring (entryLine e) 0 (len (fst e)) = fst e /\
  split slash (slice (entryLine e) (len (fst e) + 2) (-1)) = snd e.
Proof.
  intros (Hsp & _ & Hne & Hsl & _).
  split; [|split].
  - unfold entryLine. change (" /" ++ join "/" (snd e) ++ "/")
      with (String space ("/" ++ join "/" (snd e) ++ "/")).
    now apply indexOf_first.
  - unfold substring. pose proof (entryLine_length e) as HL.
    assert (0 <= len (fst e)) by (unfold len; lia).
    assert (0 <= len (join "/" (snd e))) by (unfold len; lia).
    rewrite (Z.min_r _ 0), Z.max_id by lia.
    rewrite (Z.min_r _ (len (fst e))) by lia.
    rewrite (Z.max_r 0 (len (fst e))), Z.min_l, Z.max_r by lia.
    rewrite Z.sub_0_r. unfold len at 1. rewrite Nat2Z.id. simpl.
    unfold entryLine. apply substring_prefix.
  - pose proof (entryLine_length e) as HL.
    assert (0 <= len (fst e)) by (unfold len; lia).
    assert (0 <= len (join "/" (snd e))) by (unfold len; lia).
    rewrite slice_to_last by lia.
    replace (Z.to_nat (len (fst e) + 2))
      with (JsString.length (fst e ++ " /") + 0)%nat
      by (rewrite length_append; unfold len; simpl; lia).
    replace (Z.to_nat (len (entryLine e) - 1 - (len (fst e) + 2)))
      with (JsString.length (join "/" (snd e))) by (unfold len in *; lia).
    unfold entryLine. rewrite <- (append_assoc (fst e) " /").
    rewrite substring_skip, substring_prefix.
    now apply (split_join slash).
Qed.

Lemma readLines_entry (e : string * list string) (rest : list string)
    (a0 a1 : Table) :
  entry_ok e ->
  readLines (entryLine e :: rest) 0 a0 a1
    = readLines rest 0 (JsMap.set (fst e) (snd e) a0) a1 /\
  readLines (entryLine e :: rest) 1 a0 a1
    = readLines rest 1 a0 (JsMap.set (fst e) (snd e) a1).
Proof.
  intros Hok. destruct (entryLine_not_marker e) as [Ha Hn].
  destruct (entryLine_parse e Hok) as (Hi & Hk & Hc).
  assert (Hpos : (len (fst e) =? -1) = false) by (apply Z.eqb_neq; unfold len; lia).
  split; cbn [readLines]; rewrite Ha, Hn, Hi, Hpos; simpl; now rewrite Hk, Hc.
Qed.

Lemma readLines_entries (l : list (string * list string)) (rest : list string)
    (a0 a1 : Table) :
  Forall entry_ok l ->
  readLines (map entryLine l ++ rest) 0 a0 a1
    = readLines rest 0 (fold_left (fun m e => JsMap.set (fst e) (snd e) m) l a0) a1 /\
  readLines (map entryLine l ++ rest) 1 a0 a1
    = readLines rest 1 a0 (fold_left (fun m e => JsMap.set (fst e) (snd e) m) l a1).
Proof.
  intros Hl. revert a0 a1. induction Hl as [|e l He Hl IH]; intros a0 a1.
  - split; reflexivity.
  - destruct (readLines_entry e (map entryLine l ++ rest) a0 a1 He) as [E0 E1].
    simpl map. simpl app. rewrite E0, E1. simpl fold_left.
    split; [apply (IH _ a1) | apply (IH a0 _)].
Qed.

(** What [decode] stores satisfies [table_ok]. *)
Lemma readLines_ok (lines : list string) :
  Forall (fun l => has newline l = false) lines ->
  forall mode a0 a1, table_ok a0 -> table_ok a1 ->
  table_ok (fst (readLines lines mode a0 a1)) /\
  table_ok (snd (readLines lines mode a0 a1)).
Proof.
  induction 1 as [|line rest Hline Hrest IH]; intros mode a0 a1 H0 H1.
  - now split.
  - cbn [readLines].
    destruct (JsString.eqb line okuriAriMarker); [now apply IH|].
    destruct (JsString.eqb line okuriNasiMarker); [now apply IH|].
    destruct (mode =? -1); [now apply IH|].
    destruct (Z.eqb_spec (indexOf space line) (-1)) as [|Hpos]; [now apply IH|].
    cbn [negb].
    assert (Hok : entry_ok (substring line 0 (indexOf space line),
                            split slash (slice line (indexOf space line + 2) (-1)))).
    { destruct (indexOf_range space line) as [|Hr]; [contradiction|].
      unfold entry_ok, substring, slice. cbn [fst snd].
      rewrite (Z.min_r _ 0), Z.max_id by lia.
      rewrite (Z.min_r _ (indexOf space line)) by lia.
      rewrite (Z.max_r 0 (indexOf space line)), Z.min_l, Z.max_r by lia.
      rewrite Z.sub_0_r.
      split; [apply has_before_indexOf|].
      split; [now apply has_substring|].
      split; [apply split_not_nil|].
      split; apply split_pieces; [now left | right; now apply has_substring]. }
    destruct H0 as [W0 F0], H1 as [W1 F1].
    destruct (mode =? 0); apply IH; try (split; assumption);
      (split; [now apply JsMapFacts.wf_set | now apply JsMapFacts.Forall_set]).
Qed.

Lemma decode_ok (text : string) :
  table_ok (fst (decode text)) /\ table_ok (snd (decode text)).
Proof.
  unfold decode. apply readLines_ok.
  - apply split_pieces. now left.
  - split; constructor.
  - split; constructor.
Qed.

Lemma table_ok_Permutation (m m' : Table) :
  Permutation m m' -> table_ok m -> table_ok m'.
Proof.
  intros Hp [Hw Hf]. split.
  - now apply (JsMapFacts.wf_Permutation m).
  - now apply (Permutation_Forall Hp).
Qed.

(** On tables as the decoder makes them, decoding the encoded text gives
    the two sorted entry lists. *)
Lemma decode_encode_sorted (a n : Table) :
  table_ok a -> table_ok n ->
  decode (encode (a, n)) = (sortOkuriAri a, sortOkuriNasi n).
Proof.
  intros Ha Hn.
  assert (Hsa : table_ok (sortOkuriAri a))
    by (apply (table_ok_Permutation a); [symmetry; apply JsArrayFacts.sort_Permutation | exact Ha]).
  assert (Hsn : table_ok (sortOkuriNasi n))
    by (apply (table_ok_Permutation n); [symmetry; apply JsArrayFacts.sort_Permutation | exact Hn]).
  unfold decode, encode. cbn [fst snd].
  rewrite split_join.
  - cbn [app readLines]. rewrite JsStringFacts.eqb_refl.
    destruct (readLines_entries (sortOkuriAri a)
                (okuriNasiMarker :: map entryLine (sortOkuriNasi n) ++ [""])%list
                [] [] (proj2 Hsa)) as [E0 _].
    rewrite E0. rewrite JsMapFacts.set_all_fresh by (exact (proj1 Hsa)).
    cbn [app readLines]. change (JsString.eqb okuriNasiMarker okuriAriMarker) with false.
    cbv iota. rewrite JsStringFacts.eqb_refl.
    destruct (readLines_entries (sortOkuriNasi n) [""] (sortOkuriAri a) []
                (proj2 Hsn)) as [_ E1].
    rewrite E1. rewrite JsMapFacts.set_all_fresh by (exact (proj1 Hsn)).
    reflexivity.
  - discriminate.
  - constructor; [reflexivity|]. apply Forall_app. split.
    + apply Forall_map. eapply Forall_impl; [|exact (proj2 Hsa)].
      intros e. apply entryLine_newline_free.
    + constructor; [reflexivity|]. apply Forall_app. split.
      * apply Forall_map. eapply Forall_impl; [|exact (proj2 Hsn)].
        intros e. apply entryLine_newline_free.
      * repeat constructor.
Qed.

(** C1.  Round trip of the codec: for the two tables [t] decoded from any
    dictionary text, decoding the text that the serializer of
    [writeFile] makes of [t] gives [t] again, as maps: the same entries
    (the same candidate list under every key), in each table.  The
    insertion order of a [Map] is not part of that equality; the decoded
    text lists the entries in sorted order. *)
Theorem decode_encode_roundtrip (text : string) :
  same_entries (fst (decode (encode (decode text)))) (fst (decode text)) /\
  same_entries (snd (decode (encode (decode text)))) (snd (decode text)).
Proof.
  destruct (decode_ok text) as [Ha Hn].
  rewrite (surjective_pairing (decode text)) at 1 3.
  rewrite (decode_encode_sorted _ _ Ha Hn). cbn [fst snd].
  assert (Pa := JsArrayFacts.sort_Permutation
                  (fun a b => localeCompare (fst b) (fst a)) (fst (decode text))).
  assert (Pn := JsArrayFacts.sort_Permutation
                  (fun a b => localeCompare (fst a) (fst b)) (snd (decode text))).
  split; (split; [assumption|]); intros k; symmetry;
    apply JsMapFacts.get_Permutation;
    solve [ apply Ha | apply Hn | symmetry; assumption ].
Qed.

Lemma slashes_join (cs : list string) :
  cs <> [] ->
  "/" ++ join "/" cs = JsString.concat (map (fun c => "/" ++ c) cs).
Proof.
  induction cs as [|c cs IH]; intros Hne; [contradiction|].
  destruct cs as [|c' cs]; [cbn [join map concat]; now rewrite append_nil_r|].
  specialize (IH ltac:(discriminate)).
  change (join "/" (c :: c' :: cs)) with (c ++ "/" ++ join "/" (c' :: cs)).
  change (JsString.concat (map (fun c => "/" ++ c) (c :: c' :: cs)))
    with (("/" ++ c) ++ JsString.concat (map (fun c => "/" ++ c) (c' :: cs))).
  rewrite <- IH. reflexivity.
Qed.

(** C4.  The text encoded for a save is the okuri-ari marker line, the
    okuri-ari entries in descending order of their keys, the okuri-nasi
    marker line, the okuri-nasi entries in ascending order, and a final
    newline; every entry is there once, and an entry line is the key, one
    space, and the candidates each led by a slash and closed by one more.
    The order of keys is the one [localeCompare] gives, for any collation
    that compares all strings transitively. *)
Theorem encode_layout (a n : Table) :
  Collation localeCompare ->
  exists la ln : Table,
    encode (a, n)
      = join (String newline "")
          ([okuriAriMarker] ++ map entryLine la
             ++ [okuriNasiMarker] ++ map entryLine ln ++ [""])%list /\
    Permutation la a /\ Permutation ln n /\
    StronglySorted (fun x y => localeCompare (fst y) (fst x) <= 0) la /\
    StronglySorted (fun x y => localeCompare (fst x) (fst y) <= 0) ln /\
    (forall k cs, cs <> [] ->
       entryLine (k, cs)
         = k ++ " " ++ JsString.concat (map (fun c => "/" ++ c) cs) ++ "/").
Proof.
  intros [Htot Htr].
  exists (sortOkuriAri a), (sortOkuriNasi n).
  split; [reflexivity|].
  split; [apply JsArrayFacts.sort_Permutation|].
  split; [apply JsArrayFacts.sort_Permutation|].
  split; [|split].
  - apply (JsArrayFacts.sort_sorted (fun x y => localeCompare (fst y) (fst x))).
    + intros x y. destruct (Htot (fst x) (fst y)); tauto.
    + intros x y z Hxy Hyz. now apply (Htr (fst z) (fst y) (fst x)).
  - apply (JsArrayFacts.sort_sorted (fun x y => localeCompare (fst x) (fst y))).
    + intros x y. apply Htot.
    + intros x y z. apply Htr.
  - intros k cs Hne. unfold entryLine. cbn [fst snd].
    rewrite <- (slashes_join cs Hne). reflexivity.
Qed.

End Codec.

Lemma unitCompare_collation : Collation Example.unitCompare.
Proof.
  assert (Hle : forall a b, Example.unitCompare a b <= 0 <-> JsString.compare a b <> Gt).
  { intros a b. unfold Example.unitCompare.
    destruct (JsString.compare a b); split; (lia || congruence). }
  split.
  - intros a b. rewrite !Hle, (JsStringFacts.compare_antisym a b).
    destruct (JsString.compare b a); simpl; [left | right | left]; congruence.
  - intros a b c. rewrite !Hle. intros Hab Hbc.
    destruct (JsString.compare a b) eqn:Eab; [| |congruence].
    + apply JsStringFacts.compare_eq in Eab. now subst.
    + destruct (JsString.compare b c) eqn:Ebc; [| |congruence].
      * apply JsStringFacts.compare_eq in Ebc. subst. congruence.
      * rewrite (JsStringFacts.compare_lt_trans _ _ _ Eab Ebc). discriminate.
Qed.

(** [encode_layout] at a user dictionary with two okuri-ari and two
    okuri-nasi entries, on the example host. *)
Lemma encode_layout_witness :
  Collation (@localeCompare Example.host) /\
  exists la ln : Table,
    @encode Example.host ([("かe", ["買"]); ("あr", ["有"; "在"])],
                          [("い", ["胃"]); ("あい", ["愛"; "藍"])])
      = JsString.join Example.nl
          ([okuriAriMarker] ++ map entryLine la
             ++ [okuriNasiMarker] ++ map entryLine ln ++ [""])%list /\
    Permutation la [("かe", ["買"]); ("あr", ["有"; "在"])] /\
    Permutation ln [("い", ["胃"]); ("あい", ["愛"; "藍"])] /\
    StronglySorted (fun x y => Example.unitCompare (fst y) (fst x) <= 0) la /\
    StronglySorted (fun x y => Example.unitCompare (fst x) (fst y) <= 0) ln /\
    (forall k cs, cs <> [] ->
       entryLine (k, cs)
         = k ++ " " ++ JsString.concat (map (fun c => "/" ++ c) cs) ++ "/").
Proof.
  split; [exact unitCompare_collation|].
  exact (@encode_layout Example.host _ _ unitCompare_collation).
Defined.

(** ** The user dictionary *)

Section UserDictionaryFacts.
Context {host : Host}.

Lemma target_with_target (type : HenkanType) (m : Table) (d : UserDictionary) :
  target type (with_target type m d) = m.
Proof. destruct type; reflexivity. Qed.

Lemma rank_with_target (type : HenkanType) (m : Table) (d : UserDictionary) :
  rank (with_target type m d) = rank d.
Proof. destruct type; reflexivity. Qed.

Lemma registerCandidate_unfold (type : HenkanType) (key candidate : string)
    (now : Z) (d : UserDictionary) :
  candidate <> "" ->
  target type (registerCandidate type key candidate now d)
    = JsMap.set key (JsSet.from (candidate :: entryOf key (target type d)))
        (target type d) /\
  rank (registerCandidate type key candidate now d)
    = JsMap.set candidate now (rank d).
Proof.
  intros Hne. unfold registerCandidate.
  destruct (JsStringFacts.eqb_spec candidate ""); [contradiction|].
  destruct type; split; reflexivity.
Qed.

(** C3, as the code has it.  Registering the empty string changes
    nothing.  Registering any other candidate stores under the key, in
    the table the type selects, the candidate followed by the old list
    without it and with every repeated candidate reduced to its first
    occurrence; when the old list has no repeats this is the candidate
    followed by the old list without it.  The rank of the candidate
    becomes the current time, and no other key of the table changes. *)
Theorem registerCandidate_spec (type : HenkanType) (key candidate : string)
    (now : Z) (d : UserDictionary) :
  registerCandidate type key "" now d = d /\
  (candidate <> "" ->
   let old := entryOf key (target type d) in
   let d' := registerCandidate type key candidate now d in
   JsMap.get key (target type d')
     = Some (candidate :: filter (fun c => negb (JsString.eqb c candidate)) (uniq old)) /\
   (NoDup old ->
    JsMap.get key (target type d')
      = Some (candidate :: filter (fun c => negb (JsString.eqb c candidate)) old)) /\
   JsMap.get candidate (rank d') = Some now /\
   (forall k, k <> key -> JsMap.get k (target type d') = JsMap.get k (target type d))).
Proof.
  split; [reflexivity|].
  intros Hne old d'.
  destruct (registerCandidate_unfold type key candidate now d Hne) as [Ht Hr].
  fold d' in Ht, Hr. fold old in Ht.
  assert (Hd' : JsMap.get key (target type d')
                = Some (candidate :: filter (fun c => negb (JsString.eqb c candidate)) (uniq old))).
  { rewrite Ht, JsMapFacts.get_set_same, JsSetFacts.from_uniq. reflexivity. }
  split; [exact Hd'|]. split; [|split].
  - intros Hnd. rewrite Hd'. now rewrite (JsSetFacts.uniq_id old Hnd).
  - rewrite Hr. apply JsMapFacts.get_set_same.
  - intros k Hk. rewrite Ht. now apply JsMapFacts.get_set_other.
Qed.

Lemma purgeCandidate_unfold (type : HenkanType) (key candidate : string)
    (d : UserDictionary) :
  target type (purgeCandidate type key candidate d)
    = let kept := filter (fun c => negb (JsString.eqb c candidate))
                    (entryOf key (target type d)) in
      if 0 <? Z.of_nat (List.length kept)
      then JsMap.set key kept (target type d)
      else JsMap.delete key (target type d).
Proof.
  unfold purgeCandidate. cbv zeta.
  destruct (0 <? Z.of_nat (List.length _)); apply target_with_target.
Qed.

(** C5.  Purging stores under the key, in the table the type selects,
    the old list without the occurrences of the candidate, the others in
    their order, and removes the key when nothing is left; the other
    keys and the other table stay as they were. *)
Theorem purgeCandidate_spec (type : HenkanType) (key candidate : string)
    (d : UserDictionary) :
  let kept := filter (fun c => negb (JsString.eqb c candidate))
                (entryOf key (target type d)) in
  let d' := purgeCandidate type key candidate d in
  (forall k, JsMap.get k (target type d')
             = if JsString.eqb k key
               then match kept with [] => None | _ :: _ => Some kept end
               else JsMap.get k (target type d)) /\
  match type with
  | okuriari => okuriNasi d' = okuriNasi d
  | okurinasi => okuriAri d' = okuriAri d
  end.
Proof.
  intros kept d'. split.
  - intros k. subst d'. rewrite purgeCandidate_unfold. fold kept.
    destruct kept as [|c kept'] eqn:E.
    + cbn [List.length Z.of_nat]. change (0 <? 0) with false. cbv iota.
      destruct (JsStringFacts.eqb_spec k key) as [->|Hk].
      * apply JsMapFacts.get_delete_same.
      * now apply JsMapFacts.get_delete_other.
    + replace (0 <? Z.of_nat (List.length (c :: kept'))) with true
        by (symmetry; apply Z.ltb_lt; cbn [List.length]; lia).
      destruct (JsStringFacts.eqb_spec k key) as [->|Hk].
      * apply JsMapFacts.get_set_same.
      * now apply JsMapFacts.get_set_other.
  - subst d'. unfold purgeCandidate. fold kept.
    destruct (0 <? Z.of_nat (List.length kept)), type; reflexivity.
Qed.

(** After a registration the next completion query for a prefix that
    is not empty is answered from the tables as they are then. *)
Lemma registerCandidate_invalidates_cache (type : HenkanType)
    (key candidate : string) (now : Z) (d : UserDictionary) (prefix feed : string) :
  candidate <> "" -> prefix <> "" ->
  fst (getCandidates prefix feed (registerCandidate type key candidate now d))
    = searchCandidates (okuriNasi (registerCandidate type key candidate now d))
        prefix feed.
Proof.
  intros Hc Hp. unfold getCandidates, cacheCandidates, registerCandidate.
  destruct (JsStringFacts.eqb_spec candidate ""); [contradiction|].
  cbn [cachedPrefix with_cachedPrefix fst].
  destruct (JsStringFacts.eqb_spec "" prefix); [congruence|]. reflexivity.
Qed.

End UserDictionaryFacts.

(** [registerCandidate_spec] at a fresh dictionary, registering "a" and
    then "b" under "test". *)
Lemma registerCandidate_spec_witness :
  "b" <> "" /\
  NoDup ["a"] /\
  JsMap.get "test"
    (okuriNasi (registerCandidate okurinasi "test" "b" 20
                  (registerCandidate okurinasi "test" "a" 10
                     (UserDictionary_new [] [] []))))
    = Some ["b"; "a"].
Proof.
  assert (Hne : "b" <> "") by discriminate.
  assert (Hnd : NoDup ["a"]) by (constructor; [simpl; tauto | constructor]).
  split; [exact Hne|]. split; [exact Hnd|].
  exact (proj1 (proj2 (proj2 (registerCandidate_spec okurinasi "test" "b" 20
           (registerCandidate okurinasi "test" "a" 10 (UserDictionary_new [] [] [])))
           Hne)) Hnd).
Defined.

(** C3 fails as stated on an entry that lists a candidate twice, which
    loading a dictionary file can produce: after registering "b" the
    stored list is "b", "a", not "b", "a", "a". *)
Lemma registerCandidate_spec_counterexample :
  entryOf "k" (okuriNasi Example.repeatDict) = ["a"; "a"] /\
  JsMap.get "k" (okuriNasi (registerCandidate okurinasi "k" "b" 7 Example.repeatDict))
    <> Some ("b" :: filter (fun c => negb (JsString.eqb c "b"))
                      (entryOf "k" (okuriNasi Example.repeatDict))).
Proof. split; [reflexivity | discriminate]. Qed.

(** ** The completion cache *)

Section CacheFacts.
Context {host : Host}.

(** [purgeCandidate] leaves the three cache fields alone, so a repeated
    query is answered from the cache filled before it. *)
Lemma purgeCandidate_keeps_cache (type : HenkanType) (key candidate : string)
    (d : UserDictionary) (prefix feed : string) :
  fst (getCandidates prefix feed
         (purgeCandidate type key candidate (snd (getCandidates prefix feed d))))
    = fst (getCandidates prefix feed d).
Proof.
  unfold getCandidates, cacheCandidates, purgeCandidate. cbn [fst snd].
  destruct (JsString.eqb (cachedPrefix d) prefix && JsString.eqb (cachedFeed d) feed) eqn:E.
  - destruct (0 <? _), type; cbn; rewrite E; reflexivity.
  - destruct (0 <? _), type; cbn; rewrite !JsStringFacts.eqb_refl; reflexivity.
Qed.

End CacheFacts.

(** C2 at a failing input.  The dictionary holds one okuri-nasi entry,
    "あい" with the candidate "愛", and has answered a completion query
    for the prefix "あい".  After the candidate is purged the table is
    empty and a fresh search finds nothing, yet the same query still
    returns the purged entry. *)
Theorem purgeCandidate_leaves_cache_stale :
  okuriNasi (purgeCandidate okurinasi "あい" "愛" Example.queriedDict) = [] /\
  @searchCandidates Example.host
    (okuriNasi (purgeCandidate okurinasi "あい" "愛" Example.queriedDict)) "あい" "" = [] /\
  fst (@getCandidates Example.host "あい" ""
         (purgeCandidate okurinasi "あい" "愛" Example.queriedDict))
    = [("あい", ["愛"])].
Proof. repeat split; reflexivity. Qed.

(** The cache is cleared by resetting the cached prefix to the empty
    string, so a query for the empty prefix still hits it: on a fresh
    dictionary the query after a registration misses the new entry. *)
Lemma registerCandidate_empty_prefix_stale :
  @searchCandidates Example.host
    (okuriNasi (registerCandidate okurinasi "あい" "愛" 1 (UserDictionary_new [] [] [])))
    "" "" = [("あい", ["愛"])] /\
  fst (@getCandidates Example.host "" ""
         (registerCandidate okurinasi "あい" "愛" 1 (UserDictionary_new [] [] [])))
    = [].
Proof. split; reflexivity. Qed.

(** ** Persistence *)

Section Persistence.
Context {host : Host}.

Lemma assertArray_isString_ok (j : JSON) (l : list string) :
  assertArray_isString j = inr l <-> j = JArray (map JString l).
Proof.
  split.
  - destruct j as [| | | |items|]; try discriminate. simpl.
    destruct (forallb isString items) eqn:E; [|discriminate].
    intros [= <-]. f_equal. induction items as [|x items IH]; [reflexivity|].
    simpl in E. apply andb_true_iff in E as [Hx E].
    destruct x; try discriminate. simpl. f_equal. now apply IH.
  - intros ->. simpl.
    assert (H : forallb isString (map JString l) = true)
      by (induction l; simpl; auto).
    rewrite H. f_equal. induction l as [|x l IH]; simpl; [reflexivity | now rewrite IH].
Qed.

Lemma assertArray_isString_fails (j : JSON) :
  (forall l, j <> JArray (map JString l)) ->
  exists e, assertArray_isString j = inl e.
Proof.
  intros H. destruct (assertArray_isString j) as [e|l] eqn:E; [now exists e|].
  apply assertArray_isString_ok in E. now apply H in E.
Qed.

(** [load] catches whatever its body throws. *)
Lemma load_never_throws (p rp : option string) (s : UState) :
  fst (load p rp s) = inr tt.
Proof.
  unfold load, bind, this_, gets, update, modify, try_catch, ret. cbn [fst snd].
  destruct (truthy _); [|reflexivity].
  match goal with |- context [host_call ?op ?st] => destruct (host_call op st) as [[e|m] s1] end;
    [reflexivity|].
  cbn [fst snd]. destruct (_ =? loadTime _); [reflexivity|].
  match goal with |- context [readFile ?a ?b ?st] => destruct (readFile a b st) as [[e|[]] s2] end;
    reflexivity.
Qed.

(** [save] catches whatever [writeFile] throws. *)
Lemma save_never_throws (s : UState) : fst (save s) = inr tt.
Proof.
  unfold save, bind, this_, gets, update, modify, try_catch, ret. cbn [fst snd].
  destruct (negb (truthy _)); [reflexivity|].
  match goal with |- context [writeFile ?a ?b ?st] => destruct (writeFile a b st) as [[e|[]] s1] end.
  - destruct config_debug; reflexivity.
  - match goal with |- context [host_call ?op ?st] => destruct (host_call op st) as [[e|m] s2] end;
      reflexivity.
Qed.

(** What [writeFile] does, by the outcome of the two writes. *)
Lemma writeFile_run (p rp : string) (d : UserDictionary) (rt : Runtime) :
  writeFile p rp (d, rt)
  = match Deno_writeTextFile p (encode (okuriAri d, okuriNasi d)) (world rt) with
    | (inl e, w) =>
        (inl e,
         (d, {| world := w;
                trace := EvLog ("warning(skkeleton): can't write userJisyo to " ++ p)
                           :: trace rt |}))
    | (inr _, w) =>
        let tr := EvWrite p (encode (okuriAri d, okuriNasi d)) :: trace rt in
        if negb (truthy rp) then (inr tt, (d, {| world := w; trace := tr |}))
        else
          match Deno_writeTextFile rp (JSON_stringify (rankData d)) w with
          | (inl e, w') =>
              (inl e,
               (d, {| world := w';
                      trace := EvLog ("warning(skkeleton): can't write candidate rank data to " ++ rp)
                                 :: tr |}))
          | (inr _, w') =>
              (inr tt,
               (d, {| world := w';
                      trace := EvWrite rp (JSON_stringify (rankData d)) :: tr |}))
          end
    end.
Proof.
  unfold writeFile, writeTextFile, console_log, emit, host_call, bind, try_catch,
    this_, gets, modify, throw, ret.
  cbn [fst snd].
  destruct (Deno_writeTextFile p _ (world rt)) as [[e|[]] w]; cbn [fst snd world trace];
    [reflexivity|].
  destruct (negb (truthy rp)); [reflexivity|]. cbv zeta. cbn [fst snd world trace].
  destruct (Deno_writeTextFile rp _ w) as [[e|[]] w']; reflexivity.
Qed.

(** C7, as the code has it.  With a path configured, when writing the
    dictionary file fails, or writing the rank file after it, [writeFile]
    throws that error, and [save] catches it: [save] returns normally and
    leaves the dictionary object, its recorded modification time
    included, as it was. *)
Theorem save_swallows_write_failure (d : UserDictionary) (rt : Runtime)
    (e : Error) (w : World) :
  truthy (path d) = true ->
  (Deno_writeTextFile (path d) (encode (okuriAri d, okuriNasi d)) (world rt) = (inl e, w)
   \/ exists w1,
        Deno_writeTextFile (path d) (encode (okuriAri d, okuriNasi d)) (world rt)
          = (inr tt, w1) /\
        truthy (rankPath d) = true /\
        Deno_writeTextFile (rankPath d) (JSON_stringify (rankData d)) w1 = (inl e, w)) ->
  fst (writeFile (path d) (rankPath d) (d, rt)) = inl e /\
  fst (save (d, rt)) = inr tt /\
  fst (snd (save (d, rt))) = d.
Proof.
  intros Hp Hfail.
  assert (Hw : exists rt', writeFile (path d) (rankPath d) (d, rt) = (inl e, (d, rt'))).
  { rewrite writeFile_run. destruct Hfail as [H|(w1 & H1 & Hrp & H2)].
    - rewrite H. eexists; reflexivity.
    - rewrite H1. cbv zeta. rewrite Hrp, H2. cbn [negb]. eexists; reflexivity. }
  destruct Hw as [rt' Hw].
  split; [now rewrite Hw|].
  split; [apply save_never_throws|].
  unfold save, bind, this_, gets, try_catch, ret. cbn [fst snd].
  rewrite Hp. cbn [negb]. cbv beta iota. rewrite Hw. cbn [negb fst snd].
  destruct config_debug; reflexivity.
Qed.

(** C10.  [purgeCandidate] does not touch the rank table: the table, and
    so the array written to the rank file, are what they were.  A
    candidate that had a rank keeps it, and the next [save] that writes
    both files writes it into the rank file. *)
Theorem purgeCandidate_keeps_rank (type : HenkanType) (key candidate : string)
    (d : UserDictionary) :
  let d' := purgeCandidate type key candidate d in
  rank d' = rank d /\
  rankData d' = rankData d /\
  (forall r, JsMap.get candidate (rank d) = Some r ->
     JsMap.get candidate (rank d') = Some r /\ In candidate (rankData d')) /\
  (forall rt w1 w2,
     truthy (path d) = true -> truthy (rankPath d) = true ->
     Deno_writeTextFile (path d') (encode (okuriAri d', okuriNasi d')) (world rt)
       = (inr tt, w1) ->
     Deno_writeTextFile (rankPath d') (JSON_stringify (rankData d)) w1 = (inr tt, w2) ->
     In (EvWrite (rankPath d) (JSON_stringify (rankData d)))
        (trace (snd (snd (save (d', rt)))))).
Proof.
  intros d'.
  assert (Hr : rank d' = rank d).
  { subst d'. unfold purgeCandidate. destruct (0 <? _); apply rank_with_target. }
  assert (Hp : path d' = path d /\ rankPath d' = rankPath d).
  { subst d'. unfold purgeCandidate. destruct (0 <? _), type; split; reflexivity. }
  assert (Hd : rankData d' = rankData d) by (unfold rankData; now rewrite Hr).
  split; [exact Hr|]. split; [exact Hd|]. split.
  - intros r Hget. rewrite Hr. split; [exact Hget|].
    rewrite Hd. unfold rankData. apply in_map_iff. exists (candidate, r).
    split; [reflexivity|].
    apply (Permutation_in _ (Permutation_sym (JsArrayFacts.sort_Permutation _ (rank d)))).
    clear - Hget. induction (rank d) as [|[k v] m IH]; simpl in *; [discriminate|].
    destruct (JsStringFacts.eqb_spec k candidate); [left; congruence | right; auto].
  - intros rt w1 w2 Hpath Hrpath H1 H2. destruct Hp as [Hp1 Hp2].
    unfold save, bind, this_, gets, try_catch, ret, update, modify. cbn [fst snd].
    rewrite Hp1, Hpath. cbn [negb]. cbv beta iota. rewrite <- Hp1.
    rewrite writeFile_run, H1. cbv zeta. rewrite Hp2 at 1. rewrite Hrpath. cbn [negb].
    rewrite Hd, H2. cbn [fst snd].
    destruct (host_call _ _) as [[e0|m] s2] eqn:E; cbn [fst snd trace];
      unfold host_call in E; cbn [fst snd world trace] in E;
      destruct (Deno_stat_mtime _ _) as [r0 w0]; inversion E; subst;
      cbn [trace]; rewrite Hp2; now left.
Qed.

(** C6, as the code has it.  With a rank path configured and a
    dictionary file that has changed since the last load, when the rank
    file parses to a value that is not an array of strings, [readFile]
    throws the format error, and [load] catches it: [load] returns
    normally, the rank table is what it was, and the tables read from
    the dictionary file are in place. *)
Theorem load_swallows_rank_format_error (d : UserDictionary) (rt : Runtime)
    (p rp text rtext : string) (mtime : option Z) (w1 w2 w3 : World) (j : JSON) :
  truthy p = true -> truthy rp = true ->
  Deno_stat_mtime p (world rt) = (inr mtime, w1) ->
  match mtime with Some t => t | None => -1 end <> loadTime d ->
  Deno_readTextFile p w1 = (inr text, w2) ->
  Deno_readTextFile rp w2 = (inr rtext, w3) ->
  JSON_parse rtext = inr j ->
  (forall l, j <> JArray (map JString l)) ->
  let time := match mtime with Some t => t | None => -1 end in
  let d1 := with_loadTime time (with_paths p rp d) in
  (exists e, fst (readFile p rp (d1, {| world := w1; trace := trace rt |})) = inl e) /\
  fst (load (Some p) (Some rp) (d, rt)) = inr tt /\
  rank (fst (snd (load (Some p) (Some rp) (d, rt)))) = rank d /\
  (okuriAri (fst (snd (load (Some p) (Some rp) (d, rt)))),
   okuriNasi (fst (snd (load (Some p) (Some rp) (d, rt))))) = decode text.
Proof.
  intros Hp Hrp Hstat Htime Hread Hrread Hparse Hshape time d1.
  destruct (assertArray_isString_fails j Hshape) as [e He].
  assert (Hrf : readFile p rp (d1, {| world := w1; trace := trace rt |})
                = (inl e,
                   (with_tables (fst (decode text)) (snd (decode text))
                      (with_tables [] [] d1),
                    {| world := w3; trace := trace rt |}))).
  { unfold readFile, readTextFile, host_call, bind, update, modify, lift_result, throw, ret.
    cbn [fst snd world trace]. rewrite Hread. cbn [fst snd world trace].
    rewrite Hrp. cbn [negb]. cbv beta iota. cbn [fst snd world trace].
    rewrite Hrread. cbn [fst snd world trace]. rewrite Hparse, He. reflexivity. }
  split; [exists e; now rewrite Hrf|].
  split; [apply load_never_throws|].
  unfold load, bind, this_, gets, update, modify, try_catch, ret, host_call.
  cbn [fst snd world trace path]. rewrite Hp. cbv beta iota. cbn [fst snd world trace].
  rewrite Hstat. cbn [fst snd world trace loadTime with_paths].
  fold time. destruct (Z.eqb_spec time (loadTime d)) as [E|_]; [contradiction|].
  cbv beta iota. cbn [fst snd].
  change (with_loadTime time (with_paths p rp d)) with d1.
  rewrite Hrf. cbn [fst snd].
  split; [reflexivity|]. cbn. symmetry. apply surjective_pairing.
Qed.

End Persistence.

(** [save_swallows_write_failure] where the dictionary file is not
    writable. *)
Lemma save_swallows_write_failure_witness :
  truthy (path Example.pathDict) = true /\
  fst (@writeFile Example.host "/jisyo" "/rank"
         (Example.pathDict, Example.start Example.deniedWorld))
    = inl (JsError "PermissionDenied" "/jisyo") /\
  fst (@save Example.host (Example.pathDict, Example.start Example.deniedWorld)) = inr tt /\
  fst (snd (@save Example.host (Example.pathDict, Example.start Example.deniedWorld)))
    = Example.pathDict.
Proof.
  split; [reflexivity|].
  exact (@save_swallows_write_failure Example.host Example.pathDict
           (Example.start Example.deniedWorld)
           (JsError "PermissionDenied" "/jisyo") Example.deniedWorld
           eq_refl (or_introl eq_refl)).
Defined.

(** C7 fails as stated: with the dictionary path configured and the
    file not writable, [writeFile] throws, yet no error comes out of
    [save]. *)
Lemma save_propagates_counterexample :
  fst (@writeFile Example.host (path Example.pathDict) (rankPath Example.pathDict)
         (Example.pathDict, Example.start Example.deniedWorld))
    = inl (JsError "PermissionDenied" "/jisyo") /\
  ~ exists e,
      fst (@save Example.host (Example.pathDict, Example.start Example.deniedWorld))
        = inl e.
Proof.
  split; [reflexivity|]. intros [e H]. vm_compute in H. discriminate H.
Qed.

(** [load_swallows_rank_format_error] where the rank file holds
    [null]. *)
Lemma load_swallows_rank_format_error_witness :
  (exists e,
     fst (@readFile Example.host "/jisyo" "/rank"
            (with_loadTime 100 (with_paths "/jisyo" "/rank" (UserDictionary_new [] [] [("x", 3)])),
             Example.start Example.nullRankWorld)) = inl e) /\
  fst (@load Example.host (Some "/jisyo") (Some "/rank")
         (UserDictionary_new [] [] [("x", 3)], Example.start Example.nullRankWorld))
    = inr tt /\
  rank (fst (snd (@load Example.host (Some "/jisyo") (Some "/rank")
         (UserDictionary_new [] [] [("x", 3)], Example.start Example.nullRankWorld))))
    = [("x", 3)] /\
  (okuriAri (fst (snd (@load Example.host (Some "/jisyo") (Some "/rank")
         (UserDictionary_new [] [] [("x", 3)], Example.start Example.nullRankWorld)))),
   okuriNasi (fst (snd (@load Example.host (Some "/jisyo") (Some "/rank")
         (UserDictionary_new [] [] [("x", 3)], Example.start Example.nullRankWorld)))))
    = decode Example.repeatText.
Proof.
  refine (@load_swallows_rank_format_error Example.host
            (UserDictionary_new [] [] [("x", 3)]) (Example.start Example.nullRankWorld)
            "/jisyo" "/rank" Example.repeatText "null" (Some 100)
            Example.nullRankWorld Example.nullRankWorld Example.nullRankWorld JNull
            eq_refl eq_refl eq_refl _ eq_refl eq_refl eq_refl _).
  - simpl. lia.
  - intros l. discriminate.
Defined.

(** C6 fails as stated: the rank file holds [null], [readFile] throws
    the assertion error, yet no error comes out of [load], which leaves
    the old rank table in place. *)
Lemma load_rank_format_counterexample :
  @JSON_parse Example.host "null" = inr JNull /\
  fst (@readFile Example.host "/jisyo" "/rank"
         (UserDictionary_new [] [] [("x", 3)], Example.start Example.nullRankWorld))
    = inl (JsError "AssertError" "The value is not an array of string") /\
  ~ exists e,
      fst (@load Example.host (Some "/jisyo") (Some "/rank")
             (UserDictionary_new [] [] [("x", 3)], Example.start Example.nullRankWorld))
        = inl e.
Proof.
  split; [reflexivity|]. split; [reflexivity|].
  intros [e H]. vm_compute in H. discriminate H.
Qed.

(** [purgeCandidate_keeps_rank] on the example host: "愛" is purged from
    its only entry and the save that follows still writes it to the
    rank file. *)
Lemma purgeCandidate_keeps_rank_witness :
  JsMap.get "愛" (rank Example.pathDict) = Some 50 /\
  okuriNasi (purgeCandidate okurinasi "あい" "愛" Example.pathDict) = [] /\
  In "愛" (rankData (purgeCandidate okurinasi "あい" "愛" Example.pathDict)) /\
  In (EvWrite "/rank" (@JSON_stringify Example.host ["愛"]))
     (trace (snd (snd (@save Example.host
                         (purgeCandidate okurinasi "あい" "愛" Example.pathDict,
                          Example.start (Example.emptyWorld 0)))))).
Proof.
  pose proof (@purgeCandidate_keeps_rank Example.host okurinasi "あい" "愛" Example.pathDict)
    as (_ & _ & Hin & Hsave).
  split; [reflexivity|]. split; [reflexivity|].
  split; [exact (proj2 (Hin 50 eq_refl))|].
  exact (Hsave (Example.start (Example.emptyWorld 0)) _ _ eq_refl eq_refl eq_refl eq_refl).
Defined.

(** ** The skkserv client *)

Section SkkServerFacts.
Context {host : Host}.

(** When the response line arrives whole as the first chunk, decoded as
    [str] ending in a newline, the lookup returns nothing if [str]
    starts with ['4'], and otherwise the fields of [str] between slashes
    without the first and the last one. *)
Lemma SkkServer_getCandidate_line (s : SkkServer) (c : Conn)
    (word res : string) (rest : list string) :
  conn s = Some c ->
  incoming c = res :: rest ->
  JsString.endsWith (decode_from (responseEncoding s) res) JsString.newline = true ->
  fst (SkkServer_getCandidate word s)
    = match JsString.at0 (decode_from (responseEncoding s) res) with
      | Some 52%N => []
      | _ => List.removelast
               (List.tl (JsString.split JsString.slash
                           (decode_from (responseEncoding s) res)))
      end.
Proof.
  intros Hc Hi Hnl. unfold SkkServer_getCandidate. rewrite Hc, Hi.
  cbn [readResponse]. rewrite Hnl. reflexivity.
Qed.

End SkkServerFacts.

(** [SkkServer_getCandidate_line] at the response to the request for
    "ai", and at a not-found response. *)
Lemma SkkServer_getCandidate_line_witness :
  fst (@SkkServer_getCandidate Example.host "ai"
         (Example.serverWith ["1/AI/人工知能/" ++ Example.nl]))
    = ["AI"; "人工知能"] /\
  fst (@SkkServer_getCandidate Example.host "zzz"
         (Example.serverWith ["4zzz " ++ Example.nl]))
    = [].
Proof.
  split.
  - exact (@SkkServer_getCandidate_line Example.host
             (Example.serverWith ["1/AI/人工知能/" ++ Example.nl]) _ "ai" _ _
             eq_refl eq_refl eq_refl).
  - exact (@SkkServer_getCandidate_line Example.host
             (Example.serverWith ["4zzz " ++ Example.nl]) _ "zzz" _ _
             eq_refl eq_refl eq_refl).
Defined.

(** C9.  The lookup reads chunks until one ends in a newline, but it
    tests for ['4'] and cuts at the slashes in every chunk by itself, not
    in the response line.  The line "1/AI/人工知能/" with its newline
    gives both candidates when it arrives whole; arriving in the two
    chunks "1/AI/人工" and "知能/" it gives "AI" only, the candidate that
    lies across the chunk boundary being dropped as the last field of
    the first chunk and the first field of the second.  A later chunk
    that starts with ['4'] is taken for a not-found answer and its
    candidates are dropped: the line "1/AI/42/" arriving as "1/AI/" and
    "42/" gives "AI" only.  And the not-found line for the word "a/b/c",
    arriving as "4a" and "/b/c ", gives the candidate "b" instead of
    nothing. *)
Theorem SkkServer_getCandidate_split_line :
  fst (@SkkServer_getCandidate Example.host "ai"
         (Example.serverWith ["1/AI/人工知能/" ++ Example.nl]))
    = ["AI"; "人工知能"] /\
  "1/AI/人工" ++ "知能/" ++ Example.nl = "1/AI/人工知能/" ++ Example.nl /\
  fst (@SkkServer_getCandidate Example.host "ai"
         (Example.serverWith ["1/AI/人工"; "知能/" ++ Example.nl]))
    = ["AI"] /\
  fst (@SkkServer_getCandidate Example.host "ai"
         (Example.serverWith ["1/AI/42/" ++ Example.nl]))
    = ["AI"; "42"] /\
  fst (@SkkServer_getCandidate Example.host "ai"
         (Example.serverWith ["1/AI/"; "42/" ++ Example.nl]))
    = ["AI"] /\
  fst (@SkkServer_getCandidate Example.host "a/b/c"
         (Example.serverWith ["4a/b/c " ++ Example.nl]))
    = [] /\
  fst (@SkkServer_getCandidate Example.host "a/b/c"
         (Example.serverWith ["4a"; "/b/c " ++ Example.nl]))
    = ["b"].
Proof.
  repeat split; vm_compute; reflexivity.
Qed.

(** ** The library *)

Section LibraryFacts.
Context {host : Host}.

Lemma mergeCandidates_spec (u : UserDictionary) (type : HenkanType) (word : string)
    (dics : list Dictionary) (merged : JsSet.t) :
  fst (mergeCandidates u dics type word merged)
    = JsSet.addAll merged
        (List.concat (map (fun dic => fst (Dictionary_getCandidate u dic type word)) dics)).
Proof.
  revert merged. induction dics as [|dic dics IH]; intros merged; [reflexivity|].
  cbn [mergeCandidates map List.concat].
  destruct (Dictionary_getCandidate u dic type word) as [cs dic'].
  specialize (IH (JsSet.addAll merged cs)).
  destruct (mergeCandidates u dics type word (JsSet.addAll merged cs)) as [m rest'].
  cbn [fst] in *. now rewrite JsSetFacts.addAll_app.
Qed.

(** The wrapper passes a word without digits through. *)
Lemma wrapDictionary_transparent (u : UserDictionary) (dic : Dictionary)
    (type : HenkanType) (word : string) :
  replaceDigitRuns word = word ->
  fst (Dictionary_getCandidate u (wrapDictionary dic) type word)
    = fst (Dictionary_getCandidate u dic type word).
Proof.
  intros H. cbn [wrapDictionary Dictionary_getCandidate]. rewrite H.
  destruct (Dictionary_getCandidate u dic type word) as [cs dic'].
  cbn [fst]. now rewrite JsStringFacts.eqb_refl.
Qed.

(** C8.  A library asks its sources in order, the wrapped user
    dictionary first and then the configured ones as given to the
    constructor, and returns what they answer, one after the other,
    without repeats: every candidate once, at the place of its first
    occurrence.  With the global dictionary of the tests, after "test" is
    registered for "てすと" the answer is "test", "テスト". *)
Theorem Library_getCandidate_merge (dicts : list Dictionary) (u : UserDictionary)
    (type : HenkanType) (word : string) :
  let answers :=
    map (fun dic => fst (Dictionary_getCandidate u dic type word))
      (wrapDictionary TheUserDictionary :: dicts) in
  let result := fst (Library_getCandidate type word (Library_new dicts u)) in
  result = uniq (List.concat answers) /\
  NoDup result /\
  (forall c, In c result <-> In c (List.concat answers)) /\
  (forall now,
     fst (Library_getCandidate okurinasi "てすと"
            (Library_new [wrapDictionary (OfSKKDictionary Example.globalJisyo)]
               (registerCandidate okurinasi "てすと" "test" now
                  (UserDictionary_new [] [] []))))
       = ["test"; "テスト"]).
Proof.
  intros answers result.
  assert (E : result = uniq (List.concat answers)).
  { subst result answers. unfold Library_getCandidate, Library_new.
    cbn [dictionaries userDictionary].
    pose proof (mergeCandidates_spec u type word
                  ([wrapDictionary TheUserDictionary] ++ dicts)%list []) as H.
    destruct (mergeCandidates u _ type word []) as [m ds]. cbn [fst] in *.
    rewrite H. apply JsSetFacts.from_uniq. }
  split; [exact E|]. rewrite E.
  split; [apply JsSetFacts.uniq_NoDup|].
  split; [intros c; apply JsSetFacts.uniq_In|].
  intros now. reflexivity.
Qed.

End LibraryFacts.

(* ================================================================== *)
(** * Further properties *)

(** ** The dictionary text format, continued *)

Section CodecMore.
Context {host : Host}.
Import JsString JsStringFacts.

Lemma split_app_sep (sep : N) (a b : string) :
  split sep (a ++ String sep b) = (split sep a ++ split sep b)%list.
Proof.
  induction a as [|x a IH]; cbn [append split].
  - now rewrite N.eqb_refl.
  - rewrite IH. destruct (N.eqb x sep); [reflexivity|].
    pose proof (split_not_nil sep a) as Hne.
    destruct (split sep a) as [|h t]; [contradiction | reflexivity].
Qed.

Lemma no_space_not_marker (line : string) :
  has space line = false ->
  JsString.eqb line okuriAriMarker = false /\
  JsString.eqb line okuriNasiMarker = false.
Proof.
  intros H. split; apply eqb_neq; intros E; rewrite E in H; discriminate H.
Qed.

Lemma readLines_skip (bad : string) (l1 l2 : list string) :
  has space bad = false ->
  forall mode a0 a1,
    readLines (l1 ++ bad :: l2)%list mode a0 a1 = readLines (l1 ++ l2)%list mode a0 a1.
Proof.
  intros Hbad. destruct (no_space_not_marker bad Hbad) as [Ha Hn].
  induction l1 as [|line l1 IH]; intros mode a0 a1.
  - cbn [app readLines]. rewrite Ha, Hn, (indexOf_absent space bad Hbad).
    destruct (mode =? -1); reflexivity.
  - cbn [app readLines].
    destruct (JsString.eqb line okuriAriMarker); [apply IH|].
    destruct (JsString.eqb line okuriNasiMarker); [apply IH|].
    destruct (mode =? -1); [apply IH|].
    destruct (negb (indexOf space line =? -1)); [|apply IH].
    destruct (mode =? 0); apply IH.
Qed.

(** X1.  Whatever the text, the two decoded tables are well formed: no
    key twice, no space or newline in a key, at least one candidate under
    every key, and no slash or newline in a candidate. *)
Theorem decode_tables_wellformed (text : string) :
  table_ok (fst (decode text)) /\ table_ok (snd (decode text)).
Proof. exact (decode_ok text). Qed.

(** X2.  The decoder is lenient: a line without a space (a blank line
    too) is skipped, wherever it stands; the text decodes as it does
    without that line. *)
Theorem decode_skips_line_without_space (a bad b : string) :
  has space bad = false ->
  has newline bad = false ->
  decode (a ++ String newline (bad ++ String newline b))
    = decode (a ++ String newline b).
Proof.
  intros Hsp Hnl. unfold decode.
  rewrite !split_app_sep, (split_free newline bad Hnl).
  cbn [app]. now apply readLines_skip.
Qed.

Lemma readLines_preamble (pre rest : list string) (a0 a1 : Table) :
  Forall (fun l => l <> okuriAriMarker /\ l <> okuriNasiMarker) pre ->
  readLines (pre ++ rest)%list (-1) a0 a1 = readLines rest (-1) a0 a1.
Proof.
  induction 1 as [|line pre [Ha Hn] _ IH]; [reflexivity|].
  cbn [app readLines].
  apply eqb_neq in Ha, Hn. rewrite Ha, Hn. exact IH.
Qed.

(** X3.  Lines before the first marker line are ignored: a text whose
    first lines hold no marker decodes as the text after them. *)
Theorem decode_ignores_preamble (pre rest : string) :
  Forall (fun l => l <> okuriAriMarker /\ l <> okuriNasiMarker)
    (split newline pre) ->
  decode (pre ++ String newline rest) = decode rest.
Proof.
  intros H. unfold decode. rewrite split_app_sep. now apply readLines_preamble.
Qed.

Lemma decode_encode_same_entries (a n : Table) :
  table_ok a -> table_ok n ->
  same_entries (fst (decode (encode (a, n)))) a /\
  same_entries (snd (decode (encode (a, n)))) n.
Proof.
  intros Ha Hn. rewrite (decode_encode_sorted a n Ha Hn). cbn [fst snd].
  assert (Pa := JsArrayFacts.sort_Permutation
                  (fun x y => localeCompare (fst y) (fst x)) a).
  assert (Pn := JsArrayFacts.sort_Permutation
                  (fun x y => localeCompare (fst x) (fst y)) n).
  split; (split; [assumption|]); intros k; symmetry;
    apply JsMapFacts.get_Permutation;
    solve [ apply Ha | apply Hn | symmetry; assumption ].
Qed.

(** X4.  Round trip for tables in general: two well-formed tables,
    encoded and decoded, come back with the same entries. *)
Theorem encode_decode_tables (a n : Table) :
  table_ok a -> table_ok n ->
  same_entries (fst (decode (encode (a, n)))) a /\
  same_entries (snd (decode (encode (a, n)))) n.
Proof. exact (decode_encode_same_entries a n). Qed.

Lemma sort_sorted_id {A : Type} (cmp : A -> A -> Z) (l : list A) :
  StronglySorted (fun x y => cmp x y <= 0) l -> JsArray.sort cmp l = l.
Proof.
  induction 1 as [|x l Hs IH Hx]; [reflexivity|].
  cbn [JsArray.sort]. rewrite IH. destruct l as [|y l]; [reflexivity|].
  cbn [JsArray.insert]. inversion Hx as [|? ? Hxy _]; subst.
  destruct (Z.leb_spec (cmp x y) 0); [reflexivity | lia].
Qed.

(** X5.  Saving what was loaded from a saved file writes the same text:
    for well-formed tables, encoding the decoded encoding gives the
    encoding again, character for character, under any collation that
    compares all strings transitively. *)
Theorem encode_decode_encode (a n : Table) :
  Collation localeCompare ->
  table_ok a -> table_ok n ->
  encode (decode (encode (a, n))) = encode (a, n).
Proof.
  intros [Htot Htr] Ha Hn. rewrite (decode_encode_sorted a n Ha Hn).
  unfold encode. cbn [fst snd]. unfold sortOkuriAri, sortOkuriNasi.
  rewrite (sort_sorted_id (fun x y => localeCompare (fst y) (fst x))
             (JsArray.sort _ a)).
  - rewrite (sort_sorted_id (fun x y => localeCompare (fst x) (fst y))
               (JsArray.sort _ n)); [reflexivity|].
    apply (JsArrayFacts.sort_sorted (fun x y => localeCompare (fst x) (fst y))).
    + intros x y. apply Htot.
    + intros x y z. apply Htr.
  - apply (JsArrayFacts.sort_sorted (fun x y => localeCompare (fst y) (fst x))).
    + intros x y. destruct (Htot (fst x) (fst y)); tauto.
    + intros x y z Hxy Hyz. now apply (Htr (fst z) (fst y) (fst x)).
Qed.

End CodecMore.

Lemma sample_tables_ok : table_ok Sample.ariTable /\ table_ok Sample.nasiTable.
Proof.
  split; (split;
    [ unfold JsMap.wf; cbn; repeat constructor; cbn; intuition discriminate
    | repeat constructor; cbn; discriminate ]).
Qed.

(** [decode_skips_line_without_space] at a dictionary with a junk
    line between two entries. *)
Lemma decode_skips_line_without_space_witness :
  decode (";; okuri-nasi entries." ++ Sample.nl ++ "あ /亜/"
            ++ String JsString.newline ("junk" ++ String JsString.newline "い /胃/"))
    = decode (";; okuri-nasi entries." ++ Sample.nl ++ "あ /亜/"
                ++ String JsString.newline "い /胃/").
Proof.
  exact (decode_skips_line_without_space
           (";; okuri-nasi entries." ++ Sample.nl ++ "あ /亜/") "junk" "い /胃/"
           eq_refl eq_refl).
Defined.

(** [decode_ignores_preamble] at a file that starts with two comment
    lines. *)
Lemma decode_ignores_preamble_witness :
  decode (";; -*- coding: utf-8 -*-" ++ Sample.nl ++ "x /y/"
            ++ String JsString.newline
                 (";; okuri-nasi entries." ++ Sample.nl ++ "あ /亜/"))
    = decode (";; okuri-nasi entries." ++ Sample.nl ++ "あ /亜/").
Proof.
  apply (decode_ignores_preamble (";; -*- coding: utf-8 -*-" ++ Sample.nl ++ "x /y/")).
  repeat constructor; discriminate.
Defined.

(** [encode_decode_tables] at the sample tables on the example host. *)
Lemma encode_decode_tables_witness :
  same_entries
    (fst (decode (@encode Example.host (Sample.ariTable, Sample.nasiTable))))
    Sample.ariTable /\
  same_entries
    (snd (decode (@encode Example.host (Sample.ariTable, Sample.nasiTable))))
    Sample.nasiTable.
Proof.
  exact (@encode_decode_tables Example.host _ _
           (proj1 sample_tables_ok) (proj2 sample_tables_ok)).
Defined.

(** [encode_decode_encode] at the sample tables on the example host. *)
Lemma encode_decode_encode_witness :
  @encode Example.host
    (decode (@encode Example.host (Sample.ariTable, Sample.nasiTable)))
    = @encode Example.host (Sample.ariTable, Sample.nasiTable).
Proof.
  exact (@encode_decode_encode Example.host _ _ unitCompare_collation
           (proj1 sample_tables_ok) (proj2 sample_tables_ok)).
Defined.

(** ** The user dictionary, continued *)

Section UserDictionaryMore.
Import JsString JsStringFacts.

Lemma get_In_first {V : Type} (m : JsMap.t V) (k : string) (v : V) :
  JsMap.get k m = Some v -> In (k, v) m.
Proof.
  induction m as [|[k' v'] m IH]; simpl; [discriminate|].
  destruct (eqb_spec k' k); [intros [= ->]; left; congruence | right; auto].
Qed.

Lemma set_same {V : Type} (m : JsMap.t V) (k : string) (v : V) :
  JsMap.get k m = Some v -> JsMap.set k v m = m.
Proof.
  induction m as [|[k' v'] m IH]; simpl; [discriminate|].
  destruct (eqb_spec k' k); [intros [= ->]; congruence | intros H; f_equal; auto].
Qed.

Lemma delete_absent {V : Type} (m : JsMap.t V) (k : string) :
  JsMap.get k m = None -> JsMap.delete k m = m.
Proof.
  unfold JsMap.delete. induction m as [|[k' v'] m IH]; simpl; [reflexivity|].
  destruct (eqb_spec k' k); [discriminate | intros H; simpl; f_equal; auto].
Qed.

Lemma Forall_delete {V : Type} (P : string * V -> Prop) (m : JsMap.t V) (k : string) :
  Forall P m -> Forall P (JsMap.delete k m).
Proof.
  unfold JsMap.delete. intros H. apply Forall_forall. intros e He.
  apply filter_In in He as [He _]. revert e He. now apply Forall_forall.
Qed.

Lemma entryOf_Forall (P : string -> Prop) (Q : string * list string -> Prop)
    (m : Table) (k : string) :
  (forall e, Q e -> Forall P (snd e)) ->
  Forall Q m -> Forall P (entryOf k m).
Proof.
  intros HQ Hm. unfold entryOf. destruct (JsMap.get k m) as [l|] eqn:E; [|constructor].
  apply get_In_first in E. apply (HQ (k, l)).
  exact (proj1 (Forall_forall _ _) Hm _ E).
Qed.

Lemma with_target_same (type : HenkanType) (d : UserDictionary) :
  with_target type (target type d) d = d.
Proof. destruct d, type; reflexivity. Qed.

Lemma filter_neq_idem (c : string) (l : list string) :
  filter (fun x => negb (JsString.eqb x c)) (filter (fun x => negb (JsString.eqb x c)) l)
    = filter (fun x => negb (JsString.eqb x c)) l.
Proof.
  apply forallb_filter_id. apply forallb_forall. intros x Hx.
  now apply filter_In in Hx as [_ Hx].
Qed.

Lemma other_table_register (type : HenkanType) (key candidate : string)
    (now : Z) (d : UserDictionary) :
  match type with
  | okuriari => okuriNasi (registerCandidate type key candidate now d) = okuriNasi d
  | okurinasi => okuriAri (registerCandidate type key candidate now d) = okuriAri d
  end.
Proof.
  unfold registerCandidate. destruct (JsString.eqb candidate ""), type; reflexivity.
Qed.

Lemma other_table_purge (type : HenkanType) (key candidate : string)
    (d : UserDictionary) :
  match type with
  | okuriari => okuriNasi (purgeCandidate type key candidate d) = okuriNasi d
  | okurinasi => okuriAri (purgeCandidate type key candidate d) = okuriAri d
  end.
Proof.
  unfold purgeCandidate. destruct (0 <? _), type; reflexivity.
Qed.

(** The table a mutation selects holds [P] afterwards if it did before
    and the mutation keeps [P]; the other table is untouched. *)
Lemma both_tables (P : Table -> Prop) (type : HenkanType) (d d' : UserDictionary) :
  P (okuriAri d) -> P (okuriNasi d) ->
  (P (target type d) -> P (target type d')) ->
  match type with
  | okuriari => okuriNasi d' = okuriNasi d
  | okurinasi => okuriAri d' = okuriAri d
  end ->
  P (okuriAri d') /\ P (okuriNasi d').
Proof.
  intros Ha Hn Ht Ho. destruct type; cbn [target] in Ht; rewrite Ho; auto.
Qed.

(** X6.  A registration keeps the dictionary fit for the text format:
    when both tables are well formed, the key has no space or newline
    and the candidate no slash or newline, both tables are well formed
    afterwards. *)
Theorem registerCandidate_keeps_wellformed (type : HenkanType)
    (key candidate : string) (now : Z) (d : UserDictionary) :
  dictionary_ok d ->
  has space key = false -> has newline key = false ->
  has slash candidate = false -> has newline candidate = false ->
  dictionary_ok (registerCandidate type key candidate now d).
Proof.
  intros [Ha Hn] Hk1 Hk2 Hc1 Hc2.
  destruct (eqb_spec candidate "") as [->|Hne]; [now split|].
  apply (both_tables table_ok type d); try assumption;
    [|apply other_table_register].
  destruct (registerCandidate_unfold type key candidate now d Hne) as [-> _].
  intros [Hw Hf]. split; [now apply JsMapFacts.wf_set|].
  apply JsMapFacts.Forall_set; [exact Hf|].
  rewrite JsSetFacts.from_uniq.
  assert (Hold : forall c0 : N, (forall e, entry_ok e -> Forall (fun c => has c0 c = false) (snd e)) ->
                 has c0 candidate = false ->
                 Forall (fun c => has c0 c = false)
                   (uniq (candidate :: entryOf key (target type d)))).
  { intros c0 Hq Hc. apply Forall_forall. intros x Hx.
    destruct (proj1 (JsSetFacts.uniq_In x (candidate :: entryOf key (target type d))) Hx)
      as [<-|Hx']; [exact Hc|].
    pose proof (entryOf_Forall _ _ (target type d) key Hq Hf) as HF.
    exact (proj1 (Forall_forall _ _) HF x Hx'). }
  repeat split; cbn [fst snd]; try assumption.
  - cbn [uniq]. discriminate.
  - apply Hold; [|exact Hc1]. intros e He. apply He.
  - apply Hold; [|exact Hc2]. intros e He. apply He.
Qed.

(** X7.  A purge keeps the dictionary fit for the text format, whatever
    the key and the candidate: no entry is left with an empty list. *)
Theorem purgeCandidate_keeps_wellformed (type : HenkanType)
    (key candidate : string) (d : UserDictionary) :
  dictionary_ok d ->
  dictionary_ok (purgeCandidate type key candidate d).
Proof.
  intros [Ha Hn].
  apply (both_tables table_ok type d); try assumption; [|apply other_table_purge].
  rewrite purgeCandidate_unfold. cbv zeta. intros [Hw Hf].
  set (kept := filter _ _).
  destruct (Z.ltb_spec 0 (Z.of_nat (List.length kept))) as [Hlen|Hlen].
  - split; [now apply JsMapFacts.wf_set|].
    apply JsMapFacts.Forall_set; [exact Hf|].
    assert (Hsub : forall c0 : N,
               (forall e, entry_ok e -> Forall (fun c => has c0 c = false) (snd e)) ->
               Forall (fun c => has c0 c = false) kept).
    { intros c0 Hq. apply Forall_forall. intros x Hx.
      apply filter_In in Hx as [Hx _].
      pose proof (entryOf_Forall _ _ (target type d) key Hq Hf) as HF.
      exact (proj1 (Forall_forall _ _) HF x Hx). }
    repeat split; cbn [fst snd].
    + pose proof (Forall_forall entry_ok (target type d)) as [Hall _].
      specialize (Hall Hf).
      destruct (JsMap.get key (target type d)) as [l|] eqn:E.
      * apply get_In_first in E. apply (proj1 (Hall _ E)).
      * subst kept. unfold entryOf in Hlen. rewrite E in Hlen. cbn in Hlen. lia.
    + pose proof (Forall_forall entry_ok (target type d)) as [Hall _].
      specialize (Hall Hf).
      destruct (JsMap.get key (target type d)) as [l|] eqn:E.
      * apply get_In_first in E. apply (proj1 (proj2 (Hall _ E))).
      * subst kept. unfold entryOf in Hlen. rewrite E in Hlen. cbn in Hlen. lia.
    + intros E. rewrite E in Hlen. cbn in Hlen. lia.
    + apply Hsub. intros e He. apply He.
    + apply Hsub. intros e He. apply He.
  - split; [now apply JsMapFacts.wf_delete | now apply Forall_delete].
Qed.

Lemma entryOf_NoDup (m : Table) (k : string) :
  entries_unique m -> NoDup (entryOf k m).
Proof.
  intros Hm. unfold entryOf. destruct (JsMap.get k m) as [l|] eqn:E; [|constructor].
  apply get_In_first in E. exact (proj1 (Forall_forall _ _) Hm _ E).
Qed.

(** X8.  Registrations and purges keep both tables free of repeated
    keys and of repeated candidates within an entry. *)
Theorem mutations_keep_unique (type : HenkanType) (key candidate : string)
    (now : Z) (d : UserDictionary) :
  dictionary_unique d ->
  dictionary_unique (registerCandidate type key candidate now d) /\
  dictionary_unique (purgeCandidate type key candidate d).
Proof.
  intros (Wa & Wn & Ua & Un). split.
  - destruct (eqb_spec candidate "") as [->|Hne]; [now repeat split|].
    assert (H : (JsMap.wf (okuriAri (registerCandidate type key candidate now d)) /\
                 entries_unique (okuriAri (registerCandidate type key candidate now d))) /\
                (JsMap.wf (okuriNasi (registerCandidate type key candidate now d)) /\
                 entries_unique (okuriNasi (registerCandidate type key candidate now d)))).
    { apply (both_tables (fun m => JsMap.wf m /\ entries_unique m) type d);
        try (split; assumption); [|apply other_table_register].
      destruct (registerCandidate_unfold type key candidate now d Hne) as [-> _].
      intros [Hw Hu]. split; [now apply JsMapFacts.wf_set|].
      apply JsMapFacts.Forall_set; [exact Hu|].
      cbn [snd]. rewrite JsSetFacts.from_uniq. apply JsSetFacts.uniq_NoDup. }
    unfold dictionary_unique. tauto.
  - assert (H : (JsMap.wf (okuriAri (purgeCandidate type key candidate d)) /\
                 entries_unique (okuriAri (purgeCandidate type key candidate d))) /\
                (JsMap.wf (okuriNasi (purgeCandidate type key candidate d)) /\
                 entries_unique (okuriNasi (purgeCandidate type key candidate d)))).
    { apply (both_tables (fun m => JsMap.wf m /\ entries_unique m) type d);
        try (split; assumption); [|apply other_table_purge].
      rewrite purgeCandidate_unfold. cbv zeta. intros [Hw Hu].
      destruct (0 <? _).
      - split; [now apply JsMapFacts.wf_set|].
        apply JsMapFacts.Forall_set; [exact Hu|].
        cbn [snd]. apply NoDup_filter. now apply entryOf_NoDup.
      - split; [now apply JsMapFacts.wf_delete | now apply Forall_delete]. }
    unfold dictionary_unique. tauto.
Qed.

(** X9.  Purging a candidate that the entry does not list changes
    nothing, the key being absent or its list not empty. *)
Theorem purgeCandidate_absent (type : HenkanType) (key candidate : string)
    (d : UserDictionary) :
  ~ In candidate (entryOf key (target type d)) ->
  JsMap.get key (target type d) <> Some [] ->
  purgeCandidate type key candidate d = d.
Proof.
  intros Hnot Hne. unfold purgeCandidate.
  assert (Hk : filter (fun c => negb (JsString.eqb c candidate))
                 (entryOf key (target type d)) = entryOf key (target type d)).
  { apply forallb_filter_id. apply forallb_forall. intros x Hx.
    destruct (eqb_spec x candidate); [subst; contradiction | reflexivity]. }
  rewrite Hk. unfold entryOf in *.
  destruct (JsMap.get key (target type d)) as [l|] eqn:E.
  - destruct l as [|c l]; [congruence|].
    replace (0 <? Z.of_nat (List.length (c :: l))) with true
      by (symmetry; apply Z.ltb_lt; cbn [List.length]; lia).
    rewrite (set_same _ _ _ E). apply with_target_same.
  - cbn. rewrite (delete_absent _ _ E). apply with_target_same.
Qed.

(** X10.  A purge right after a registration of the same candidate
    leaves the key with the old list without that candidate, repeats
    collapsed. *)
Theorem purge_after_register (type : HenkanType) (key candidate : string)
    (now : Z) (d : UserDictionary) :
  candidate <> "" ->
  getCandidate type key
    (purgeCandidate type key candidate (registerCandidate type key candidate now d))
    = filter (fun c => negb (JsString.eqb c candidate))
        (uniq (getCandidate type key d)).
Proof.
  intros Hne. unfold getCandidate.
  destruct (registerCandidate_unfold type key candidate now d Hne) as [Ht _].
  rewrite purgeCandidate_unfold. cbv zeta. rewrite Ht.
  assert (Hold : entryOf key
                   (JsMap.set key (JsSet.from (candidate :: entryOf key (target type d)))
                      (target type d))
                 = candidate :: filter (fun c => negb (JsString.eqb c candidate))
                                  (uniq (entryOf key (target type d)))).
  { unfold entryOf at 1. rewrite JsMapFacts.get_set_same, JsSetFacts.from_uniq.
    reflexivity. }
  rewrite Hold. cbn [filter]. rewrite eqb_refl. cbn [negb]. rewrite filter_neq_idem.
  set (kept := filter _ (uniq _)).
  destruct kept as [|c kept'] eqn:Ek.
  - cbn. unfold entryOf. now rewrite JsMapFacts.get_delete_same.
  - replace (0 <? Z.of_nat (List.length (c :: kept'))) with true
      by (symmetry; apply Z.ltb_lt; cbn [List.length]; lia).
    unfold entryOf. now rewrite JsMapFacts.get_set_same.
Qed.

(** X11.  Registering again the candidate just registered changes no
    table; only its rank moves to the new time. *)
Theorem registerCandidate_again (type : HenkanType) (key candidate : string)
    (now1 now2 : Z) (d : UserDictionary) :
  candidate <> "" ->
  let d1 := registerCandidate type key candidate now1 d in
  let d2 := registerCandidate type key candidate now2 d1 in
  okuriAri d2 = okuriAri d1 /\ okuriNasi d2 = okuriNasi d1 /\
  JsMap.get candidate (rank d2) = Some now2.
Proof.
  intros Hne d1 d2.
  destruct (registerCandidate_unfold type key candidate now1 d Hne) as [Ht1 _].
  destruct (registerCandidate_unfold type key candidate now2 d1 Hne) as [Ht2 Hr2].
  fold d1 in Ht1. fold d2 in Ht2, Hr2.
  assert (Ht : target type d2 = target type d1).
  { rewrite Ht2. apply set_same. rewrite Ht1, JsMapFacts.get_set_same. f_equal.
    unfold entryOf. rewrite JsMapFacts.get_set_same, !JsSetFacts.from_uniq.
    set (old := match JsMap.get key (target type d) with Some l => l | None => [] end).
    cbn [uniq filter]. rewrite eqb_refl. cbn [negb]. f_equal.
    rewrite JsSetFacts.uniq_filter.
    rewrite (JsSetFacts.uniq_id (uniq old) (JsSetFacts.uniq_NoDup old)).
    now rewrite !filter_neq_idem. }
  pose proof (other_table_register type key candidate now2 d1) as Ho. fold d2 in Ho.
  split; [|split].
  - destruct type; cbn [target] in Ht; [exact Ht | exact Ho].
  - destruct type; cbn [target] in Ht; [exact Ho | exact Ht].
  - rewrite Hr2. apply JsMapFacts.get_set_same.
Qed.

End UserDictionaryMore.

Lemma sample_dict_ok : dictionary_ok Sample.dict.
Proof. exact sample_tables_ok. Qed.

Lemma sample_dict_unique : dictionary_unique Sample.dict.
Proof.
  unfold dictionary_unique, entries_unique, JsMap.wf. cbn.
  repeat split; repeat constructor; cbn; intuition discriminate.
Qed.

(** [registerCandidate_keeps_wellformed] at the sample dictionary. *)
Lemma registerCandidate_keeps_wellformed_witness :
  dictionary_ok (registerCandidate okurinasi "あい" "哀" 40 Sample.dict).
Proof.
  exact (registerCandidate_keeps_wellformed okurinasi "あい" "哀" 40 Sample.dict
           sample_dict_ok eq_refl eq_refl eq_refl eq_refl).
Defined.

(** [purgeCandidate_keeps_wellformed] at the sample dictionary, where
    the purge empties an entry. *)
Lemma purgeCandidate_keeps_wellformed_witness :
  dictionary_ok (purgeCandidate okurinasi "い" "胃" Sample.dict).
Proof.
  exact (purgeCandidate_keeps_wellformed okurinasi "い" "胃" Sample.dict sample_dict_ok).
Defined.

(** [mutations_keep_unique] at the sample dictionary. *)
Lemma mutations_keep_unique_witness :
  dictionary_unique (registerCandidate okurinasi "あい" "藍" 40 Sample.dict) /\
  dictionary_unique (purgeCandidate okurinasi "あい" "藍" Sample.dict).
Proof.
  exact (mutations_keep_unique okurinasi "あい" "藍" 40 Sample.dict sample_dict_unique).
Defined.

(** [purgeCandidate_absent] at a key the sample dictionary does not
    hold. *)
Lemma purgeCandidate_absent_witness :
  purgeCandidate okuriari "うr" "売" Sample.dict = Sample.dict.
Proof.
  apply (purgeCandidate_absent okuriari "うr" "売" Sample.dict).
  - cbn. tauto.
  - cbn. discriminate.
Defined.

(** [purge_after_register] at the sample dictionary. *)
Lemma purge_after_register_witness :
  getCandidate okurinasi "あい"
    (purgeCandidate okurinasi "あい" "哀"
       (registerCandidate okurinasi "あい" "哀" 40 Sample.dict))
    = ["愛"; "藍"].
Proof.
  apply (purge_after_register okurinasi "あい" "哀" 40 Sample.dict). discriminate.
Defined.

(** [registerCandidate_again] at the sample dictionary. *)
Lemma registerCandidate_again_witness :
  okuriAri (registerCandidate okurinasi "あい" "哀" 41
              (registerCandidate okurinasi "あい" "哀" 40 Sample.dict))
    = okuriAri (registerCandidate okurinasi "あい" "哀" 40 Sample.dict) /\
  okuriNasi (registerCandidate okurinasi "あい" "哀" 41
               (registerCandidate okurinasi "あい" "哀" 40 Sample.dict))
    = okuriNasi (registerCandidate okurinasi "あい" "哀" 40 Sample.dict) /\
  JsMap.get "哀" (rank (registerCandidate okurinasi "あい" "哀" 41
                          (registerCandidate okurinasi "あい" "哀" 40 Sample.dict)))
    = Some 41.
Proof.
  apply (registerCandidate_again okurinasi "あい" "哀" 40 41 Sample.dict). discriminate.
Defined.

(** ** Completion and its cache *)

Section CompletionMore.
Context {host : Host}.
Import JsString JsStringFacts.

Lemma prefix_append (p q s : string) :
  prefix (p ++ q) s = true -> prefix p s = true.
Proof.
  revert s. induction p as [|u p IH]; intros s; [reflexivity|].
  destruct s as [|v s]; cbn [append prefix]; [discriminate|].
  intros H. apply andb_true_iff in H as [Hu Hp]. rewrite Hu. now apply IH.
Qed.

(** X12.  A completion search returns entries of the table only, and
    only such whose key starts with the prefix, whatever the feed; with
    an empty feed it returns every such entry. *)
Theorem searchCandidates_sound (m : Table) (prefix feed : string)
    (e : string * list string) :
  (In e (searchCandidates m prefix feed) ->
   In e m /\ startsWith (fst e) prefix = true) /\
  (In e m /\ startsWith (fst e) prefix = true ->
   In e (searchCandidates m prefix "")).
Proof.
  split.
  - unfold searchCandidates. destruct (negb (JsString.eqb feed "")).
    + intros H. apply in_flat_map in H as [kk [_ H]].
      destruct (startsWith (fst kk) feed && _); [|contradiction].
      apply filter_In in H as [Hin Hp]. split; [exact Hin|].
      unfold startsWith in *. now apply prefix_append in Hp.
    + intros H. now apply filter_In in H.
  - intros H. unfold searchCandidates. cbn. now apply filter_In.
Qed.

(** X13.  [SKKDictionary.getCandidates] with an empty feed returns the
    okuri-nasi entries whose key starts with the prefix, each as often as
    the table has it, in ascending order of the keys, under any
    collation that compares all strings transitively. *)
Theorem SKKDictionary_getCandidates_sorted (d : SKKDictionary) (prefix : string) :
  Collation localeCompare ->
  Permutation (SKKDictionary_getCandidates d prefix "")
    (filter (fun e => startsWith (fst e) prefix) (skk_okuriNasi d)) /\
  StronglySorted (fun x y => localeCompare (fst x) (fst y) <= 0)
    (SKKDictionary_getCandidates d prefix "").
Proof.
  intros [Htot Htr]. unfold SKKDictionary_getCandidates. split.
  - apply JsArrayFacts.sort_Permutation.
  - apply (JsArrayFacts.sort_sorted (fun x y => localeCompare (fst x) (fst y))).
    + intros x y. apply Htot.
    + intros x y z. apply Htr.
Qed.

(** X14.  While the cache is fresh, a completion query with a prefix
    that is not empty returns what a search of the present table gives,
    and queries and registrations leave the cache fresh. *)
Theorem cache_fresh_kept (d : UserDictionary) :
  cache_fresh d ->
  (forall prefix feed,
     cache_fresh (snd (getCandidates prefix feed d)) /\
     (prefix <> "" ->
      fst (getCandidates prefix feed d) = searchCandidates (okuriNasi d) prefix feed)) /\
  (forall type key candidate now,
     cache_fresh (registerCandidate type key candidate now d)).
Proof.
  intros Hf. split.
  - intros prefix feed. unfold getCandidates, cacheCandidates. cbn [fst snd].
    destruct (eqb_spec (cachedPrefix d) prefix) as [Ep|Ep];
      destruct (eqb_spec (cachedFeed d) feed) as [Ef|Ef]; cbn [andb];
      try (split; [intros _; reflexivity | intros _; reflexivity]).
    split; [exact Hf|]. intros Hne. subst. now apply Hf.
  - intros type key candidate now. unfold registerCandidate.
    destruct (JsString.eqb candidate ""); [exact Hf|].
    intros H. destruct type; cbn in H; congruence.
Qed.

Lemma has_In (x : string) (s : JsSet.t) : JsSet.has x s = true <-> In x s.
Proof.
  unfold JsSet.has. rewrite existsb_exists. split.
  - intros [y [Hy E]]. apply eqb_eq in E. now subst.
  - intros H. exists x. split; [exact H | apply eqb_refl].
Qed.

Lemma addAll_In (x : string) (l : list string) (s : JsSet.t) :
  In x (JsSet.addAll s l) <-> In x s \/ In x l.
Proof.
  rewrite JsSetFacts.addAll_spec, in_app_iff, JsSetFacts.uniq_In, filter_In.
  split.
  - intros [H|[H _]]; auto.
  - intros [H|H]; [now left|].
    destruct (JsSet.has x s) eqn:E; [left; now apply has_In|].
    right. split; [exact H | reflexivity].
Qed.

Lemma gather_In (x : string) (l : CompletionData) (s : JsSet.t) :
  In x (fold_left (fun acc kc => JsSet.addAll acc (snd kc)) l s)
  <-> In x s \/ exists kc, In kc l /\ In x (snd kc).
Proof.
  revert s. induction l as [|kc l IH]; intros s; cbn [fold_left].
  - split; [now left | intros [H|[kc [[] _]]]; exact H].
  - rewrite IH, addAll_In. split.
    + intros [[H|H]|[kc' [H1 H2]]]; [now left | right; exists kc; cbn; auto |].
      right. exists kc'. cbn. auto.
    + intros [H|[kc' [[<-|H1] H2]]]; [now left; left | now left; right |].
      right. now exists kc'.
Qed.

(** X15.  [getRanks] returns the rank entries, in the order of the rank
    table, of exactly the candidates that occur in the completion of the
    prefix with an empty feed. *)
Theorem getRanks_spec (prefix : string) (d : UserDictionary) :
  fst (getRanks prefix d)
    = filter (fun e => existsb (fun kc => existsb (JsString.eqb (fst e)) (snd kc))
                         (fst (getCandidates prefix "" d)))
        (rank d).
Proof.
  unfold getRanks, getCandidates. cbn [fst snd].
  assert (Hr : rank (cacheCandidates prefix "" d) = rank d).
  { unfold cacheCandidates. destruct (_ && _); reflexivity. }
  rewrite Hr. apply filter_ext. intros [c r]. cbn [fst].
  apply eq_true_iff_eq. rewrite has_In, gather_In, existsb_exists.
  split.
  - intros [[]|[kc [H1 H2]]]. exists kc. split; [exact H1|].
    apply existsb_exists. exists c. split; [exact H2 | apply eqb_refl].
  - intros [kc [H1 H2]]. right. exists kc. split; [exact H1|].
    apply existsb_exists in H2 as [y [Hy E]]. apply eqb_eq in E. now subst.
Qed.

End CompletionMore.

(** ** Persistence, continued *)

Section PersistenceMore.
Context {host : Host}.
Import JsString JsStringFacts.

Lemma with_loadTime_same (d : UserDictionary) : with_loadTime (loadTime d) d = d.
Proof. destruct d; reflexivity. Qed.

Lemma writeFile_keeps_dictionary (p rp : string) (d : UserDictionary) (rt : Runtime) :
  fst (snd (writeFile p rp (d, rt))) = d.
Proof.
  rewrite writeFile_run.
  destruct (Deno_writeTextFile p _ (world rt)) as [[e|[]] w]; [reflexivity|].
  cbv zeta. destruct (negb (truthy rp)); [reflexivity|].
  destruct (Deno_writeTextFile rp _ w) as [[e|[]] w']; reflexivity.
Qed.

(** [save] changes nothing of the dictionary but the recorded
    modification time. *)
Lemma save_keeps_dictionary (d : UserDictionary) (rt : Runtime) :
  exists t, fst (snd (save (d, rt))) = with_loadTime t d.
Proof.
  unfold save, bind, this_, gets, update, modify, try_catch, ret. cbn [fst snd].
  destruct (negb (truthy (path d)));
    [exists (loadTime d); symmetry; apply with_loadTime_same|].
  pose proof (writeFile_keeps_dictionary (path d) (rankPath d) d rt) as Hk.
  destruct (writeFile (path d) (rankPath d) (d, rt)) as [[e|[]] [d1 rt1]];
    cbn [fst snd] in Hk; subst d1.
  - exists (loadTime d). destruct config_debug; cbn; symmetry; apply with_loadTime_same.
  - unfold host_call. cbn [fst snd].
    destruct (Deno_stat_mtime (path d) (world rt1)) as [[e|m] w]; cbn [fst snd];
      eexists; reflexivity.
Qed.

(** X16.  [save] changes nothing of the dictionary but the recorded
    modification time: tables, rank table, paths and cache stay.
    Without a configured path it does nothing at all: no write, no log
    line, no change. *)
Theorem save_changes_only_loadTime (d : UserDictionary) (rt : Runtime) :
  (exists t, fst (snd (save (d, rt))) = with_loadTime t d) /\
  (path d = "" -> save (d, rt) = (inr tt, (d, rt))).
Proof.
  split; [apply save_keeps_dictionary|].
  intros H. unfold save, bind, this_, gets, ret. cbn [fst snd]. now rewrite H.
Qed.

(** The path and rank path [load] settles on. *)
Lemma load_run (p rp : option string) (d : UserDictionary) (rt : Runtime) :
  let p' := match p with Some x => x | None => path d end in
  let rp' := match rp with Some x => x | None => rankPath d end in
  let d0 := with_paths p' rp' d in
  load p rp (d, rt)
  = if truthy p' then
      match Deno_stat_mtime p' (world rt) with
      | (inl _, w1) =>
          (inr tt, (with_cachedPrefix "" d0, {| world := w1; trace := trace rt |}))
      | (inr mtime, w1) =>
          let time := match mtime with Some t => t | None => -1 end in
          if time =? loadTime d then
            (inr tt, (d0, {| world := w1; trace := trace rt |}))
          else
            let s2 := snd (readFile p' rp'
                             (with_loadTime time d0,
                              {| world := w1; trace := trace rt |})) in
            (inr tt, (with_cachedPrefix "" (fst s2), snd s2))
      end
    else (inr tt, (d0, rt)).
Proof.
  cbv zeta. unfold load, bind, this_, gets, update, modify, try_catch, ret, host_call.
  cbn [fst snd world trace]. destruct (truthy _); [|reflexivity].
  cbv beta. cbn [fst snd world trace].
  destruct (Deno_stat_mtime _ (world rt)) as [[e|mtime] w1]; cbn [fst snd]; [reflexivity|].
  cbn [loadTime with_paths]. destruct (_ =? loadTime d); [reflexivity|].
  cbv beta. cbn [fst snd].
  destruct (readFile _ _ _) as [[e|[]] [d2 rt2]]; reflexivity.
Qed.

(** X17.  When the modification time of the file is the recorded one,
    [load] reads nothing: tables, rank table, recorded time and cache
    are untouched, only the paths are taken over. *)
Theorem load_unchanged_file (p rp : option string) (d : UserDictionary)
    (rt : Runtime) (mtime : option Z) (w1 : World) :
  let p' := match p with Some x => x | None => path d end in
  let rp' := match rp with Some x => x | None => rankPath d end in
  truthy p' = true ->
  Deno_stat_mtime p' (world rt) = (inr mtime, w1) ->
  match mtime with Some t => t | None => -1 end = loadTime d ->
  load p rp (d, rt)
    = (inr tt, (with_paths p' rp' d, {| world := w1; trace := trace rt |})).
Proof.
  intros p' rp' Hp Hstat Htime. rewrite load_run. cbv zeta. fold p' rp'.
  rewrite Hp, Hstat, Htime, Z.eqb_refl. reflexivity.
Qed.

(** X18.  A dictionary file that cannot be examined (it does not exist,
    say) is tolerated: [load] returns normally, tables, rank table and
    recorded time stay, and the cache is invalidated. *)
Theorem load_missing_file (p rp : option string) (d : UserDictionary)
    (rt : Runtime) (e : Error) (w1 : World) :
  let p' := match p with Some x => x | None => path d end in
  let rp' := match rp with Some x => x | None => rankPath d end in
  truthy p' = true ->
  Deno_stat_mtime p' (world rt) = (inl e, w1) ->
  load p rp (d, rt)
    = (inr tt,
       (with_cachedPrefix "" (with_paths p' rp' d),
        {| world := w1; trace := trace rt |})).
Proof.
  intros p' rp' Hp Hstat. rewrite load_run. cbv zeta. fold p' rp'.
  now rewrite Hp, Hstat.
Qed.

(** X19.  When the file has changed but cannot be read, [load] returns
    normally with both tables empty: the entries held before are gone,
    and the new modification time is recorded. *)
Theorem load_unreadable_file (p rp : option string) (d : UserDictionary)
    (rt : Runtime) (mtime : option Z) (e : Error) (w1 w2 : World) :
  let p' := match p with Some x => x | None => path d end in
  let rp' := match rp with Some x => x | None => rankPath d end in
  let time := match mtime with Some t => t | None => -1 end in
  truthy p' = true ->
  Deno_stat_mtime p' (world rt) = (inr mtime, w1) ->
  time <> loadTime d ->
  Deno_readTextFile p' w1 = (inl e, w2) ->
  load p rp (d, rt)
    = (inr tt,
       (with_cachedPrefix ""
          (with_tables [] [] (with_loadTime time (with_paths p' rp' d))),
        {| world := w2; trace := trace rt |})).
Proof.
  intros p' rp' time Hp Hstat Htime Hread. rewrite load_run. cbv zeta. fold p' rp' time.
  apply Z.eqb_neq in Htime. unfold time in Htime. rewrite Hp, Hstat, Htime.
  unfold readFile, readTextFile, host_call, bind, update, modify.
  cbn [fst snd world trace]. rewrite Hread. reflexivity.
Qed.

(** When the file has changed and is read, and no rank path is set,
    [load] replaces both tables by the decoded text, records the
    modification time, invalidates the cache and keeps the rank table. *)
Lemma load_changed_file (p rp : option string) (d : UserDictionary)
    (rt : Runtime) (mtime : option Z) (text : string) (w1 w2 : World) :
  let p' := match p with Some x => x | None => path d end in
  let rp' := match rp with Some x => x | None => rankPath d end in
  let time := match mtime with Some t => t | None => -1 end in
  truthy p' = true -> rp' = "" ->
  Deno_stat_mtime p' (world rt) = (inr mtime, w1) ->
  time <> loadTime d ->
  Deno_readTextFile p' w1 = (inr text, w2) ->
  load p rp (d, rt)
    = (inr tt,
       (with_cachedPrefix ""
          (with_tables (fst (decode text)) (snd (decode text))
             (with_loadTime time (with_paths p' rp' d))),
        {| world := w2; trace := trace rt |})).
Proof.
  intros p' rp' time Hp Hrp Hstat Htime Hread. rewrite load_run. cbv zeta.
  fold p' rp' time. apply Z.eqb_neq in Htime. unfold time in Htime.
  rewrite Hp, Hstat, Htime.
  unfold readFile, readTextFile, host_call, bind, update, modify, ret.
  cbn [fst snd world trace]. rewrite Hread. cbn [fst snd world trace].
  rewrite Hrp. reflexivity.
Qed.

Lemma indexed_keys (l : list string) (i : Z) : map fst (indexed l i) = l.
Proof.
  revert i. induction l as [|c l IH]; intros i; cbn; [reflexivity | now rewrite IH].
Qed.

Lemma indexed_from (l : list string) (i : Z) :
  Forall (fun e => i <= snd e) (indexed l i).
Proof.
  revert i. induction l as [|c l IH]; intros i; cbn [indexed]; constructor.
  - cbn. lia.
  - eapply Forall_impl; [|apply (IH (i + 1))]. cbn. intros e He. lia.
Qed.

Lemma indexed_sorted (l : list string) (i : Z) :
  StronglySorted (fun a b : string * Z => snd a - snd b <= 0) (indexed l i).
Proof.
  revert i. induction l as [|c l IH]; intros i; cbn [indexed]; constructor.
  - apply IH.
  - eapply Forall_impl; [|apply (indexed_from l (i + 1))]. cbn. intros e He. lia.
Qed.

Lemma rankData_indexed (arr : list string) (d : UserDictionary) :
  NoDup arr -> rankData (with_rank (JsMap.from (indexed arr 0)) d) = arr.
Proof.
  intros Hnd. unfold rankData. cbn [rank with_rank]. unfold JsMap.from.
  rewrite JsMapFacts.set_all_fresh
    by (unfold JsMap.wf, JsMap.keys; cbn [app]; now rewrite indexed_keys).
  cbn [app]. rewrite (sort_sorted_id _ _ (indexed_sorted arr 0)).
  apply indexed_keys.
Qed.

(** X20.  When the file has changed and a rank path is set whose file
    parses to an array of strings, [load] also replaces the rank table:
    every string gets its place in the array as rank, and when no string
    occurs twice the order a later save writes is the array itself. *)
Theorem load_rank_file (p rp : option string) (d : UserDictionary)
    (rt : Runtime) (mtime : option Z) (text rtext : string) (arr : list string)
    (w1 w2 w3 : World) :
  let p' := match p with Some x => x | None => path d end in
  let rp' := match rp with Some x => x | None => rankPath d end in
  let time := match mtime with Some t => t | None => -1 end in
  truthy p' = true -> truthy rp' = true ->
  Deno_stat_mtime p' (world rt) = (inr mtime, w1) ->
  time <> loadTime d ->
  Deno_readTextFile p' w1 = (inr text, w2) ->
  Deno_readTextFile rp' w2 = (inr rtext, w3) ->
  JSON_parse rtext = inr (JArray (map JString arr)) ->
  let d' := fst (snd (load p rp (d, rt))) in
  rank d' = JsMap.from (indexed arr 0) /\
  (okuriAri d', okuriNasi d') = decode text /\
  (NoDup arr -> rankData d' = arr).
Proof.
  intros p' rp' time Hp Hrp Hstat Htime Hread Hrread Hparse d'.
  assert (Hd : d' = with_cachedPrefix ""
                      (with_rank (JsMap.from (indexed arr 0))
                         (with_tables (fst (decode text)) (snd (decode text))
                            (with_tables [] [] (with_loadTime time (with_paths p' rp' d)))))).
  { subst d'. rewrite load_run. cbv zeta. fold p' rp' time.
    apply Z.eqb_neq in Htime. unfold time in Htime. rewrite Hp, Hstat, Htime.
    unfold readFile, readTextFile, host_call, bind, update, modify, ret, lift_result.
    cbn [fst snd world trace]. rewrite Hread. cbn [fst snd world trace].
    rewrite Hrp. cbn [negb]. cbv beta iota. cbn [fst snd world trace].
    rewrite Hrread. cbn [fst snd world trace]. rewrite Hparse.
    unfold ret, throw. cbn [fst snd world trace].
    rewrite (proj2 (assertArray_isString_ok _ arr) eq_refl). reflexivity. }
  rewrite Hd. split; [reflexivity|]. split.
  - cbn. symmetry. apply surjective_pairing.
  - intros Hnd.
    change (rankData (with_rank (JsMap.from (indexed arr 0))
              (with_cachedPrefix ""
                 (with_tables (fst (decode text)) (snd (decode text))
                    (with_tables [] [] (with_loadTime time (with_paths p' rp' d))))))
            = arr).
    now apply rankData_indexed.
Qed.

(** X21.  The array written to the rank file lists every candidate of
    the rank table, candidates of lower rank first. *)
Theorem rankData_sorted (d : UserDictionary) :
  exists l : list (string * Z),
    rankData d = map fst l /\
    Permutation l (rank d) /\
    StronglySorted (fun x y => snd x <= snd y) l.
Proof.
  exists (JsArray.sort (fun a b => snd a - snd b) (rank d)).
  split; [reflexivity|]. split; [apply JsArrayFacts.sort_Permutation|].
  pose proof (JsArrayFacts.sort_sorted (fun a b : string * Z => snd a - snd b)
                ltac:(intros a b; lia) ltac:(intros a b c; lia) (rank d)) as H.
  induction H as [|x l Hs IH Hx]; constructor; [exact IH|].
  eapply Forall_impl; [|exact Hx]. cbn. intros e He. lia.
Qed.

(** X22.  Loading a file that holds what [writeFile] writes for a
    well-formed dictionary gives that dictionary's entries: afterwards
    every lookup answers as it does on the dictionary that was
    written. *)
Theorem load_reads_saved_tables (d u : UserDictionary) (rt : Runtime)
    (p : string) (mtime : option Z) (w1 w2 : World) :
  dictionary_ok d ->
  truthy p = true -> rankPath u = "" ->
  Deno_stat_mtime p (world rt) = (inr mtime, w1) ->
  match mtime with Some t => t | None => -1 end <> loadTime u ->
  Deno_readTextFile p w1 = (inr (encode (okuriAri d, okuriNasi d)), w2) ->
  forall type key,
    getCandidate type key (fst (snd (load (Some p) None (u, rt))))
      = getCandidate type key d.
Proof.
  intros [Ha Hn] Hp Hrp Hstat Htime Hread type key.
  rewrite (load_changed_file (Some p) None u rt mtime _ w1 w2 Hp Hrp Hstat Htime Hread).
  cbn [fst snd]. unfold getCandidate, entryOf.
  destruct (decode_encode_same_entries _ _ Ha Hn) as [[_ Ea] [_ En]].
  destruct type; cbn [target okuriAri okuriNasi with_cachedPrefix with_tables];
    [now rewrite Ea | now rewrite En].
Qed.

End PersistenceMore.

(** [save_changes_only_loadTime] at the sample dictionary, which has no
    path. *)
Lemma save_changes_only_loadTime_witness :
  @save Example.host (Sample.dict, Example.start Sample.savedWorld)
    = (inr tt, (Sample.dict, Example.start Sample.savedWorld)).
Proof.
  exact (proj2 (@save_changes_only_loadTime Example.host Sample.dict
                  (Example.start Sample.savedWorld)) eq_refl).
Defined.

(** [load_unchanged_file]: the file was written at time 100, which is
    the time the dictionary recorded. *)
Lemma load_unchanged_file_witness :
  @load Example.host None None (Sample.loadedDict, Example.start Sample.savedWorld)
    = (inr tt, (Sample.loadedDict, Example.start Sample.savedWorld)).
Proof.
  exact (@load_unchanged_file Example.host None None Sample.loadedDict
           (Example.start Sample.savedWorld) (Some 100) Sample.savedWorld
           eq_refl eq_refl eq_refl).
Defined.

(** [load_missing_file] in a world without files. *)
Lemma load_missing_file_witness :
  @load Example.host (Some "/jisyo") None
    (Sample.dict, Example.start (Example.emptyWorld 0))
    = (inr tt,
       (with_cachedPrefix "" (with_paths "/jisyo" "" Sample.dict),
        Example.start (Example.emptyWorld 0))).
Proof.
  exact (@load_missing_file Example.host (Some "/jisyo") None Sample.dict
           (Example.start (Example.emptyWorld 0)) (JsError "NotFound" "/jisyo")
           (Example.emptyWorld 0) eq_refl eq_refl).
Defined.

(** [load_unreadable_file] where the file is there but locked: the
    sample dictionary loses its entries. *)
Lemma load_unreadable_file_witness :
  okuriNasi Sample.dict = Sample.nasiTable /\
  @load Sample.lockedHost (Some "/jisyo") None (Sample.dict, Sample.lockedStart)
    = (inr tt,
       (with_cachedPrefix ""
          (with_tables [] [] (with_loadTime 100 (with_paths "/jisyo" "" Sample.dict))),
        Sample.lockedStart)).
Proof.
  split; [reflexivity|].
  refine (@load_unreadable_file Sample.lockedHost (Some "/jisyo") None Sample.dict
            Sample.lockedStart (Some 100)
            (JsError "PermissionDenied" "/jisyo") Sample.lockedWorld Sample.lockedWorld
            eq_refl eq_refl _ eq_refl).
  cbn. lia.
Defined.

(** [load_rank_file] at a fresh dictionary and the saved world. *)
Lemma load_rank_file_witness :
  rank (fst (snd (@load Example.host (Some "/jisyo") (Some "/rank")
                    (UserDictionary_new [] [] [], Example.start Sample.savedWorld))))
    = [("胃", 0); ("愛", 1)] /\
  rankData (fst (snd (@load Example.host (Some "/jisyo") (Some "/rank")
                        (UserDictionary_new [] [] [], Example.start Sample.savedWorld))))
    = ["胃"; "愛"].
Proof.
  pose proof (@load_rank_file Example.host (Some "/jisyo") (Some "/rank")
                (UserDictionary_new [] [] []) (Example.start Sample.savedWorld) (Some 100)
                _ _ ["胃"; "愛"] Sample.savedWorld Sample.savedWorld Sample.savedWorld
                eq_refl eq_refl eq_refl ltac:(cbn; lia) eq_refl eq_refl eq_refl)
    as (Hr & _ & Hd).
  split; [exact Hr|]. apply Hd.
  repeat constructor; cbn; intuition discriminate.
Defined.

(** [load_reads_saved_tables] at the sample dictionary and a fresh one
    that loads its file. *)
Lemma load_reads_saved_tables_witness :
  getCandidate okurinasi "あい"
    (fst (snd (@load Example.host (Some "/jisyo") None
                 (UserDictionary_new [] [] [], Example.start Sample.savedWorld))))
    = ["愛"; "藍"].
Proof.
  refine (@load_reads_saved_tables Example.host Sample.dict (UserDictionary_new [] [] [])
            (Example.start Sample.savedWorld) "/jisyo" (Some 100)
            Sample.savedWorld Sample.savedWorld sample_dict_ok
            eq_refl eq_refl eq_refl _ eq_refl okurinasi "あい").
  cbn. lia.
Defined.

(** [searchCandidates_sound] at the sample table and the prefix "あ". *)
Lemma searchCandidates_sound_witness :
  In ("あい", ["愛"; "藍"]) (@searchCandidates Example.host Sample.nasiTable "あ" "").
Proof.
  apply (proj2 (@searchCandidates_sound Example.host Sample.nasiTable "あ" ""
                  ("あい", ["愛"; "藍"]))).
  split; [cbn; tauto | reflexivity].
Defined.

(** [SKKDictionary_getCandidates_sorted] at the sample tables. *)
Lemma SKKDictionary_getCandidates_sorted_witness :
  Permutation
    (@SKKDictionary_getCandidates Example.host
       {| skk_okuriAri := Sample.ariTable; skk_okuriNasi := Sample.nasiTable |} "" "")
    (filter (fun e => JsString.startsWith (fst e) "") Sample.nasiTable) /\
  StronglySorted (fun x y => Example.unitCompare (fst x) (fst y) <= 0)
    (@SKKDictionary_getCandidates Example.host
       {| skk_okuriAri := Sample.ariTable; skk_okuriNasi := Sample.nasiTable |} "" "").
Proof.
  exact (@SKKDictionary_getCandidates_sorted Example.host
           {| skk_okuriAri := Sample.ariTable; skk_okuriNasi := Sample.nasiTable |} ""
           unitCompare_collation).
Defined.

Lemma sample_cache_fresh : @cache_fresh Example.host Sample.dict.
Proof. intros H. exfalso. apply H. reflexivity. Qed.

(** [cache_fresh_kept] at the sample dictionary: a query after a
    registration finds the new entry. *)
Lemma cache_fresh_kept_witness :
  fst (@getCandidates Example.host "あ" ""
         (registerCandidate okurinasi "あう" "会う" 40
            (snd (@getCandidates Example.host "あ" "" Sample.dict))))
    = [("あい", ["愛"; "藍"]); ("あう", ["会う"])].
Proof.
  pose proof (@cache_fresh_kept Example.host Sample.dict sample_cache_fresh) as [Hq _].
  destruct (Hq "あ" "") as [Hf1 _].
  pose proof (@cache_fresh_kept Example.host _ Hf1) as [_ Hr].
  pose proof (@cache_fresh_kept Example.host _ (Hr okurinasi "あう" "会う" 40)) as [Hq2 _].
  destruct (Hq2 "あ" "") as [_ Heq].
  rewrite Heq by discriminate. reflexivity.
Defined.

(** ** The skkserv client, continued *)

Section SkkServerMore.
Context {host : Host}.
Import JsString JsStringFacts.

Lemma readResponse_frame (enc : string) (pre : list string) (last : string)
    (rest result : list string) :
  Forall (fun res => endsWith (decode_from enc res) newline = false) pre ->
  endsWith (decode_from enc last) newline = true ->
  readResponse enc (pre ++ last :: rest)%list result
    = ((result ++ flat_map (chunkCandidates enc) (pre ++ [last]))%list, rest).
Proof.
  intros Hpre Hlast. revert result.
  induction Hpre as [|res pre Hres _ IH]; intros result.
  - cbn [app readResponse flat_map]. rewrite Hlast, app_nil_r. reflexivity.
  - cbn [app readResponse flat_map]. rewrite Hres, IH, <- app_assoc. reflexivity.
Qed.

(** A lookup reads the chunks up to and including the first that ends
    in a newline. *)
Lemma SkkServer_getCandidate_framing (s : SkkServer) (c : Conn) (word : string)
    (pre : list string) (last : string) (rest : list string) :
  conn s = Some c ->
  incoming c = (pre ++ last :: rest)%list ->
  Forall (fun res => endsWith (decode_from (responseEncoding s) res) newline = false) pre ->
  endsWith (decode_from (responseEncoding s) last) newline = true ->
  fst (SkkServer_getCandidate word s)
    = flat_map (chunkCandidates (responseEncoding s)) (pre ++ [last]) /\
  conn (snd (SkkServer_getCandidate word s))
    = Some {| incoming := rest;
              outgoing := encode_to (requestEncoding s) ("1" ++ word ++ " ")
                            :: outgoing c |}.
Proof.
  intros Hc Hi Hpre Hlast. unfold SkkServer_getCandidate.
  rewrite Hc, Hi, (readResponse_frame _ pre last rest [] Hpre Hlast).
  split; reflexivity.
Qed.

Lemma readResponse_eof (enc : string) (chunks result : list string) :
  Forall (fun res => endsWith (decode_from enc res) newline = false) chunks ->
  readResponse enc chunks result
    = ((result ++ flat_map (chunkCandidates enc) chunks)%list, []).
Proof.
  intros H. revert result. induction H as [|res chunks Hres _ IH]; intros result.
  - cbn. now rewrite app_nil_r.
  - cbn [readResponse flat_map]. rewrite Hres, IH, <- app_assoc. reflexivity.
Qed.

(** When the stream ends before any chunk ends in a newline, the lookup
    returns what the chunks read yield. *)
Lemma SkkServer_getCandidate_eof (s : SkkServer) (c : Conn) (word : string) :
  conn s = Some c ->
  Forall (fun res => endsWith (decode_from (responseEncoding s) res) newline = false)
    (incoming c) ->
  fst (SkkServer_getCandidate word s)
    = flat_map (chunkCandidates (responseEncoding s)) (incoming c) /\
  option_map incoming (conn (snd (SkkServer_getCandidate word s))) = Some [].
Proof.
  intros Hc Hall. unfold SkkServer_getCandidate.
  rewrite Hc, (readResponse_eof _ (incoming c) [] Hall). split; reflexivity.
Qed.

(** X23.  A lookup on an open connection writes one request, the digit
    one, the word and a space in the request encoding, and reads the
    chunks up to and including the first that ends in a newline: the
    answer is what each of them yields, one after the other, and the
    chunks after it stay unread for the next lookup.  When the stream
    ends before any chunk ends in a newline, the answer is what the
    chunks read yield and nothing is left unread. *)
Theorem SkkServer_getCandidate_reads (s : SkkServer) (c : Conn) (word : string) :
  conn s = Some c ->
  (forall pre last rest,
     incoming c = (pre ++ last :: rest)%list ->
     Forall (fun res => endsWith (decode_from (responseEncoding s) res) newline = false)
       pre ->
     endsWith (decode_from (responseEncoding s) last) newline = true ->
     fst (SkkServer_getCandidate word s)
       = flat_map (chunkCandidates (responseEncoding s)) (pre ++ [last]) /\
     conn (snd (SkkServer_getCandidate word s))
       = Some {| incoming := rest;
                 outgoing := encode_to (requestEncoding s) ("1" ++ word ++ " ")
                               :: outgoing c |}) /\
  (Forall (fun res => endsWith (decode_from (responseEncoding s) res) newline = false)
     (incoming c) ->
   fst (SkkServer_getCandidate word s)
     = flat_map (chunkCandidates (responseEncoding s)) (incoming c) /\
   option_map incoming (conn (snd (SkkServer_getCandidate word s))) = Some []).
Proof.
  intros Hc. split.
  - intros pre last rest. now apply SkkServer_getCandidate_framing.
  - now apply SkkServer_getCandidate_eof.
Qed.

End SkkServerMore.

(** [SkkServer_getCandidate_reads] where two responses are already
    waiting: the first lookup reads the first and leaves the second. *)
Lemma SkkServer_getCandidate_reads_witness :
  fst (@SkkServer_getCandidate Example.host "ai"
         (Example.serverWith ["1/AI/"; "人工知能/" ++ Example.nl; "4zzz " ++ Example.nl]))
    = ["AI"] /\
  conn (snd (@SkkServer_getCandidate Example.host "ai"
         (Example.serverWith ["1/AI/"; "人工知能/" ++ Example.nl; "4zzz " ++ Example.nl])))
    = Some {| incoming := ["4zzz " ++ Example.nl]; outgoing := ["1ai "] |}.
Proof.
  refine (proj1 (@SkkServer_getCandidate_reads Example.host
                   (Example.serverWith
                      ["1/AI/"; "人工知能/" ++ Example.nl; "4zzz " ++ Example.nl])
                   _ "ai" eq_refl)
            ["1/AI/"] ("人工知能/" ++ Example.nl) ["4zzz " ++ Example.nl]
            eq_refl _ eq_refl).
  repeat constructor.
Defined.

(** ** The numeral wrapper *)

Section NumberConvertMore.
Context {host : Host}.
Import JsString JsStringFacts.

Lemma isDigit_hash : isDigit hash = false.
Proof. reflexivity. Qed.

Lemma replaceDigitRuns_id (s : string) : hasDigit s = false -> replaceDigitRuns s = s.
Proof.
  induction s as [|c s IH]; [reflexivity|]. cbn [hasDigit replaceDigitRuns].
  intros H. apply orb_false_iff in H as [Hc Hs]. rewrite Hc. f_equal. now apply IH.
Qed.

(** X24.  The word the wrapper hands to the wrapped dictionary holds no
    digit: every run of digits has become one number sign, and a word
    without digits is handed on as it is. *)
Theorem replaceDigitRuns_spec (s : string) :
  hasDigit (replaceDigitRuns s) = false /\
  replaceDigitRuns (replaceDigitRuns s) = replaceDigitRuns s /\
  (hasDigit s = false -> replaceDigitRuns s = s).
Proof.
  assert (H : hasDigit (replaceDigitRuns s) = false).
  { induction s as [|c s IH]; [reflexivity|]. cbn [replaceDigitRuns].
    destruct (isDigit c) eqn:Ec.
    - destruct (at0 s) as [d|]; [|reflexivity].
      destruct (isDigit d); [exact IH|]. cbn [hasDigit]. now rewrite isDigit_hash.
    - cbn [hasDigit]. now rewrite Ec. }
  split; [exact H|]. split; [now apply replaceDigitRuns_id | apply replaceDigitRuns_id].
Qed.

(** X25.  For a word without digits the wrapper is transparent: lookup
    and completion return what the wrapped dictionary returns. *)
Theorem wrapDictionary_without_digits (u : UserDictionary) (dic : Dictionary)
    (type : HenkanType) (word feed : string) :
  hasDigit word = false ->
  fst (Dictionary_getCandidate u (wrapDictionary dic) type word)
    = fst (Dictionary_getCandidate u dic type word) /\
  Dictionary_getCandidates u (wrapDictionary dic) word feed
    = Dictionary_getCandidates u dic word feed.
Proof.
  intros H. pose proof (replaceDigitRuns_id word H) as E. split.
  - now apply wrapDictionary_transparent.
  - cbn [wrapDictionary Dictionary_getCandidates]. rewrite E, eqb_refl.
    now destruct (Dictionary_getCandidates u dic word feed).
Qed.

Lemma splitMarkers_free (s : string) : has hash s = false -> splitMarkers s = [s].
Proof.
  induction s as [|c s IH]; [reflexivity|]. cbn [has splitMarkers].
  intros H. apply orb_false_iff in H as [Hc Hs]. now rewrite Hc, (IH Hs).
Qed.

Lemma splitDigitRuns_not_nil (s : string) : splitDigitRuns s <> [].
Proof.
  induction s as [|c s IH]; cbn [splitDigitRuns]; [discriminate|].
  destruct (isDigit c).
  - destruct (at0 s) as [d|]; [|discriminate].
    destruct (splitDigitRuns s) as [|h [|run t]]; try discriminate.
    destruct (isDigit d); discriminate.
  - destruct (splitDigitRuns s); discriminate.
Qed.

Lemma convertPiece_text (k e : string) : has hash k = false -> convertPiece (k, e) = k.
Proof.
  intros H. unfold convertPiece.
  assert (Hne : forall m, has hash m = true -> JsString.eqb k m = false).
  { intros m Hm. apply eqb_neq. intros ->. congruence. }
  cbn [existsb]. rewrite !Hne by reflexivity. reflexivity.
Qed.

(** X26.  A candidate without a number sign comes out of the conversion
    as it is, whatever the word typed. *)
Theorem convertNumber_without_marker (pattern entry : string) :
  has hash pattern = false -> convertNumber pattern entry = pattern.
Proof.
  intros H. unfold convertNumber, JsArray.zip. rewrite (splitMarkers_free _ H).
  pose proof (splitDigitRuns_not_nil entry) as Hne.
  destruct (splitDigitRuns entry) as [|e0 t]; [contradiction|].
  cbn [combine map join]. now apply convertPiece_text.
Qed.

Lemma splitMarkers_one (p q : string) (k : N) :
  has hash p = false -> has hash q = false -> isDigit k = true ->
  splitMarkers (p ++ String hash (String k q)) = [p; String hash (String k ""); q].
Proof.
  intros Hp Hq Hk. induction p as [|c p IH].
  - cbn [append splitMarkers]. rewrite N.eqb_refl, Hk, (splitMarkers_free q Hq).
    reflexivity.
  - cbn [has] in Hp. apply orb_false_iff in Hp as [Hc Hp].
    cbn [append splitMarkers]. now rewrite Hc, (IH Hp).
Qed.

Lemma splitDigitRuns_free (s : string) : hasDigit s = false -> splitDigitRuns s = [s].
Proof.
  induction s as [|c s IH]; [reflexivity|]. cbn [hasDigit splitDigitRuns].
  intros H. apply orb_false_iff in H as [Hc Hs]. now rewrite Hc, (IH Hs).
Qed.

Lemma splitDigitRuns_run (ds e1 : string) :
  ds <> "" -> allDigits ds = true -> hasDigit e1 = false ->
  splitDigitRuns (ds ++ e1) = [""; ds; e1].
Proof.
  intros Hne Hds He. induction ds as [|c ds IH]; [contradiction|].
  cbn [allDigits] in Hds. apply andb_true_iff in Hds as [Hc Hds].
  cbn [append splitDigitRuns]. rewrite Hc.
  destruct ds as [|d ds].
  - cbn [append]. rewrite (splitDigitRuns_free e1 He).
    destruct e1 as [|x e1]; reflexivity.
  - rewrite IH by (discriminate || assumption). cbn [append at0].
    cbn [allDigits] in Hds. apply andb_true_iff in Hds as [Hd _]. now rewrite Hd.
Qed.

Lemma splitDigitRuns_one (e0 ds e1 : string) :
  hasDigit e0 = false -> ds <> "" -> allDigits ds = true -> hasDigit e1 = false ->
  splitDigitRuns (e0 ++ ds ++ e1) = [e0; ds; e1].
Proof.
  intros H0 Hne Hds H1. induction e0 as [|c e0 IH].
  - cbn [append]. now apply splitDigitRuns_run.
  - cbn [hasDigit] in H0. apply orb_false_iff in H0 as [Hc H0].
    cbn [append splitDigitRuns]. now rewrite Hc, (IH H0).
Qed.

Lemma convertPiece_marker (k : N) (ds : string) :
  isDigit k = true ->
  convertPiece (String hash (String k ""), ds) = renderNumber k ds.
Proof.
  intros Hk. unfold isDigit in Hk. apply andb_true_iff in Hk as [Hlo Hhi].
  apply N.leb_le in Hlo, Hhi.
  assert (Hcases : (k = 48 \/ k = 49 \/ k = 50 \/ k = 51 \/ k = 52 \/ k = 53
                    \/ k = 54 \/ k = 55 \/ k = 56 \/ k = 57)%N) by lia.
  repeat (destruct Hcases as [E|Hcases]; [rewrite E; reflexivity|]).
  rewrite Hcases. reflexivity.
Qed.

(** X27.  A candidate with one numeric marker, a number sign and a
    format digit, between texts without number signs, converted for a
    word with one run of digits: the texts of the candidate stay, the
    marker is replaced by the digits rendered in the format (full-width
    for 1, kanji digits for 2, [number2kanji] for 3, the digits
    themselves otherwise), and the rest of the word plays no part. *)
Theorem convertNumber_one_marker (p q e0 ds e1 : string) (k : N) :
  has hash p = false -> has hash q = false -> isDigit k = true ->
  hasDigit e0 = false -> ds <> "" -> allDigits ds = true -> hasDigit e1 = false ->
  convertNumber (p ++ String hash (String k q)) (e0 ++ ds ++ e1)
    = p ++ renderNumber k ds ++ q.
Proof.
  intros Hp Hq Hk H0 Hne Hds H1. unfold convertNumber, JsArray.zip.
  rewrite (splitMarkers_one p q k Hp Hq Hk), (splitDigitRuns_one e0 ds e1 H0 Hne Hds H1).
  cbn [combine map join].
  rewrite (convertPiece_text p e0 Hp), (convertPiece_text q e1 Hq),
    (convertPiece_marker k ds Hk).
  reflexivity.
Qed.

End NumberConvertMore.

(** ** The library, continued *)

Section LibraryMore.
Context {host : Host}.
Import JsString JsStringFacts.

Lemma addAll_NoDup (s : JsSet.t) (l : list string) :
  NoDup s -> NoDup (JsSet.addAll s l).
Proof.
  intros Hs. rewrite JsSetFacts.addAll_spec. apply NoDup_app.
  - exact Hs.
  - apply JsSetFacts.uniq_NoDup.
  - intros a Ha Hin. apply JsSetFacts.uniq_In, filter_In in Hin as [_ Hin].
    apply has_In in Ha. rewrite Ha in Hin. discriminate Hin.
Qed.

Lemma gatherCandidates_unique (cs : CompletionData) (col : JsMap.t JsSet.t) :
  JsMap.wf col -> entries_unique col ->
  JsMap.wf (gatherCandidates col cs) /\ entries_unique (gatherCandidates col cs).
Proof.
  unfold gatherCandidates. revert col.
  induction cs as [|kc cs IH]; intros col Hw Hu; [now split|].
  cbn [fold_left]. apply IH.
  - now apply JsMapFacts.wf_set.
  - apply JsMapFacts.Forall_set; [exact Hu|]. cbn [snd]. apply addAll_NoDup.
    match goal with
    | |- NoDup (match ?g with Some _ => _ | None => _ end) =>
        destruct g as [set|] eqn:E; [|constructor]
    end.
    apply get_In_first in E. exact (proj1 (Forall_forall _ _) Hu _ E).
Qed.

(** X28.  [Library.getCandidates] answers a prefix of fewer than two
    code units with nothing, asking no source; otherwise what it
    returns has every key once and no candidate twice under a key. *)
Theorem Library_getCandidates_unique (prefix feed : string) (lib : Library) :
  (len prefix < 2 -> Library_getCandidates prefix feed lib = ([], lib)) /\
  JsMap.wf (fst (Library_getCandidates prefix feed lib)) /\
  entries_unique (fst (Library_getCandidates prefix feed lib)).
Proof.
  unfold Library_getCandidates. split.
  - intros H. apply Z.ltb_lt in H. now rewrite H.
  - destruct (len prefix <? 2); [split; constructor|].
    assert (H : forall dics acc,
               JsMap.wf (fst acc) -> entries_unique (fst acc) ->
               JsMap.wf
                 (fst (fold_left
                         (fun (acc : JsMap.t JsSet.t * UserDictionary) dic =>
                            let (cs, u') :=
                              Dictionary_getCandidates (snd acc) dic prefix feed in
                            (gatherCandidates (fst acc) cs, u'))
                         dics acc)) /\
               entries_unique
                 (fst (fold_left
                         (fun (acc : JsMap.t JsSet.t * UserDictionary) dic =>
                            let (cs, u') :=
                              Dictionary_getCandidates (snd acc) dic prefix feed in
                            (gatherCandidates (fst acc) cs, u'))
                         dics acc))).
    { induction dics as [|dic dics IH]; intros acc Hw Hu; [now split|].
      cbn [fold_left].
      apply IH; cbv beta;
        match goal with
        | |- context [let (_, _) := ?g in _] => destruct g as [cs u']
        end;
        cbn [fst];
        destruct (gatherCandidates_unique cs (fst acc) Hw Hu) as [Hw' Hu'];
        assumption. }
    specialize (H (dictionaries lib) ([], userDictionary lib)
                  ltac:(constructor) ltac:(constructor)).
    destruct (fold_left _ (dictionaries lib) _) as [collector u]. exact H.
Qed.

Lemma getCandidate_with_loadTime (type : HenkanType) (word : string) (t : Z)
    (d : UserDictionary) :
  getCandidate type word (with_loadTime t d) = getCandidate type word d.
Proof. destruct type; reflexivity. Qed.

Lemma Library_getCandidate_head (dicts : list Dictionary) (u : UserDictionary)
    (type : HenkanType) (word c : string) (l : list string) :
  hasDigit word = false ->
  getCandidate type word u = c :: l ->
  exists rest,
    fst (Library_getCandidate type word
           {| dictionaries := wrapDictionary TheUserDictionary :: dicts;
              userDictionary := u |})
      = c :: rest.
Proof.
  intros Hd Hg. unfold Library_getCandidate. cbn [dictionaries userDictionary].
  pose proof (mergeCandidates_spec u type word
                (wrapDictionary TheUserDictionary :: dicts) []) as H.
  destruct (mergeCandidates u _ type word []) as [m ds]. cbn [fst] in *.
  rewrite H. cbn [map List.concat].
  rewrite (wrapDictionary_transparent u TheUserDictionary type word
             (replaceDigitRuns_id word Hd)).
  cbn [Dictionary_getCandidate fst]. rewrite Hg.
  change (JsSet.addAll [] ?x) with (JsSet.from x). rewrite JsSetFacts.from_uniq.
  cbn [app uniq]. eexists; reflexivity.
Qed.

(** X29.  [Library.registerCandidate] never fails, whether or not it
    saves at once, and leaves the sources as they are; for a candidate
    that is not empty the user dictionary is the old one with the
    candidate registered at the time read from the clock, its recorded
    modification time apart, and a lookup of the word, if it has no
    digit, then returns the candidate first. *)
Theorem Library_registerCandidate_first (dicts : list Dictionary) (u : UserDictionary)
    (rt : Runtime) (type : HenkanType) (word candidate : string) :
  candidate <> "" ->
  let r := Library_registerCandidate type word candidate (Library_new dicts u, rt) in
  fst r = inr tt /\
  dictionaries (fst (snd r)) = dictionaries (Library_new dicts u) /\
  (exists t, userDictionary (fst (snd r))
             = with_loadTime t
                 (registerCandidate type word candidate (fst (Date_now (world rt))) u)) /\
  (hasDigit word = false ->
   exists rest, fst (Library_getCandidate type word (fst (snd r))) = candidate :: rest).
Proof.
  intros Hne r.
  set (now := fst (Date_now (world rt))).
  set (u1 := registerCandidate type word candidate now u).
  assert (Hr : fst r = inr tt /\
               dictionaries (fst (snd r)) = dictionaries (Library_new dicts u) /\
               exists t, userDictionary (fst (snd r)) = with_loadTime t u1).
  { subst r. unfold Library_registerCandidate, on_userDictionary, bind, date_now,
      host_call, update, modify, ret.
    destruct (eqb_spec candidate ""); [contradiction|].
    cbn [fst snd world trace userDictionary dictionaries Library_new].
    subst u1 now. destruct (Date_now (world rt)) as [t w']. cbn [fst snd].
    destruct config_immediatelyJisyoRW.
    - pose proof (save_never_throws
                    (registerCandidate type word candidate t u,
                     {| world := w'; trace := trace rt |})) as Hs.
      destruct (save_keeps_dictionary (registerCandidate type word candidate t u)
                  {| world := w'; trace := trace rt |}) as [t' Hk].
      destruct (save _) as [o [d2 rt2]]. cbn [fst snd] in *. subst o d2.
      split; [reflexivity|]. split; [reflexivity|]. now exists t'.
    - split; [reflexivity|]. split; [reflexivity|].
      exists (loadTime (registerCandidate type word candidate t u)).
      symmetry. apply with_loadTime_same. }
  destruct Hr as (H1 & H2 & t & H3).
  split; [exact H1|]. split; [exact H2|]. split; [now exists t|].
  intros Hd.
  assert (Hlib : fst (snd r)
                 = {| dictionaries := wrapDictionary TheUserDictionary :: dicts;
                      userDictionary := with_loadTime t u1 |}).
  { destruct (fst (snd r)) as [ds ud]. cbn in H2, H3. now subst. }
  rewrite Hlib.
  destruct (registerCandidate_unfold type word candidate now u Hne) as [Ht _].
  apply (Library_getCandidate_head dicts _ type word candidate
           (filter (fun c => negb (JsString.eqb c candidate))
              (uniq (entryOf word (target type u)))) Hd).
  rewrite getCandidate_with_loadTime. unfold getCandidate, u1.
  rewrite Ht. unfold entryOf at 1.
  now rewrite JsMapFacts.get_set_same, JsSetFacts.from_uniq.
Qed.

(** X30.  Whatever happens, [SKKDictionary.load] leaves the dictionary
    with well-formed tables, and a load that fails leaves it empty: what
    it held before is gone either way. *)
Theorem SKKDictionary_load_result
    (TextDecoder_new : string -> Error + unit)
    (Deno_readFile : string -> World -> (Error + string) * World)
    (path encoding : string) (d : SKKDictionary) (w : World) :
  let r := SKKDictionary_load TextDecoder_new Deno_readFile path encoding d w in
  table_ok (skk_okuriAri (snd (fst r))) /\
  table_ok (skk_okuriNasi (snd (fst r))) /\
  match fst (fst r) with
  | inl _ => snd (fst r) = {| skk_okuriAri := []; skk_okuriNasi := [] |}
  | inr _ =>
      exists bytes w',
        Deno_readFile path w = (inr bytes, w') /\
        (skk_okuriAri (snd (fst r)), skk_okuriNasi (snd (fst r)))
          = decode (decode_from encoding bytes)
  end.
Proof.
  cbv zeta. unfold SKKDictionary_load.
  assert (He : table_ok []) by (split; constructor).
  destruct (TextDecoder_new encoding) as [e|[]];
    [cbn [fst snd skk_okuriAri skk_okuriNasi];
     split; [exact He | split; [exact He | reflexivity]]|].
  destruct (Deno_readFile path w) as [[e|bytes] w'];
    [cbn [fst snd skk_okuriAri skk_okuriNasi];
     split; [exact He | split; [exact He | reflexivity]]|].
  cbn [fst snd skk_okuriAri skk_okuriNasi].
  destruct (decode_ok (decode_from encoding bytes)) as [Ha Hn].
  split; [exact Ha|]. split; [exact Hn|].
  exists bytes, w'. split; [reflexivity|]. symmetry. apply surjective_pairing.
Qed.

End LibraryMore.

(** [replaceDigitRuns_spec] at a word without digits. *)
Lemma replaceDigitRuns_spec_witness : replaceDigitRuns "てすと" = "てすと".
Proof. exact (proj2 (proj2 (replaceDigitRuns_spec "てすと")) eq_refl). Defined.

(** [wrapDictionary_without_digits] at the global dictionary of the
    tests. *)
Lemma wrapDictionary_without_digits_witness :
  fst (@Dictionary_getCandidate Example.host Sample.dict
         (wrapDictionary (OfSKKDictionary Example.globalJisyo)) okurinasi "てすと")
    = ["テスト"; "test"].
Proof.
  exact (proj1 (@wrapDictionary_without_digits Example.host Sample.dict
                  (OfSKKDictionary Example.globalJisyo) okurinasi "てすと" "" eq_refl)).
Defined.

(** [convertNumber_without_marker] at a candidate without a marker and
    a word with digits. *)
Lemma convertNumber_without_marker_witness :
  @convertNumber Example.host "漢字" "かんじ12" = "漢字".
Proof. exact (@convertNumber_without_marker Example.host "漢字" "かんじ12" eq_refl). Defined.

(** [convertNumber_one_marker] for the candidate "第#1回" and the word
    "だい12かい". *)
Lemma convertNumber_one_marker_witness :
  @convertNumber Example.host "第#1回" "だい12かい" = "第１２回".
Proof.
  refine (@convertNumber_one_marker Example.host "第" "回" "だい" "12" "かい" 49
            eq_refl eq_refl eq_refl eq_refl _ eq_refl eq_refl).
  discriminate.
Defined.

(** [Library_getCandidates_unique] at a prefix of one code unit. *)
Lemma Library_getCandidates_unique_witness :
  @Library_getCandidates Example.host "あ" ""
    (Library_new [wrapDictionary (OfSKKDictionary Example.globalJisyo)] Sample.dict)
    = ([], Library_new [wrapDictionary (OfSKKDictionary Example.globalJisyo)] Sample.dict).
Proof.
  apply (proj1 (@Library_getCandidates_unique Example.host "あ" ""
                  (Library_new [wrapDictionary (OfSKKDictionary Example.globalJisyo)]
                     Sample.dict))).
  cbn. lia.
Defined.

(** [Library_registerCandidate_first] with the global dictionary of the
    tests as only source. *)
Lemma Library_registerCandidate_first_witness :
  exists rest,
    fst (@Library_getCandidate Example.host okurinasi "てすと"
           (fst (snd (@Library_registerCandidate Example.host okurinasi "てすと" "test"
                        (Library_new [wrapDictionary (OfSKKDictionary Example.globalJisyo)]
                           (UserDictionary_new [] [] []),
                         Example.start (Example.emptyWorld 0))))))
      = "test" :: rest.
Proof.
  refine (proj2 (proj2 (proj2
            (@Library_registerCandidate_first Example.host
               [wrapDictionary (OfSKKDictionary Example.globalJisyo)]
               (UserDictionary_new [] [] []) (Example.start (Example.emptyWorld 0))
               okurinasi "てすと" "test" _))) eq_refl).
  discriminate.
Defined.
